(** * Verification of the resumable flashcard pipeline (core.py)

    A shallow embedding of [AnkiFlashcardGenerator] from [core.py]:
    the data classes, the cache store, the checkpoint store, the three
    stages and the orchestrator [run], followed by theorems about them.

    Modelling conventions.
    - Python objects that are shared and mutated ([FlashcardData]
      instances held both by the [flashcards] list and by
      [self.checkpoint]) live in an object store [heap]; a reference is
      an index into it.
    - The generator's attributes and the files it owns form the record
      [pstate]; every method is a state transformer [M A].
    - The outside world (content backend, speech backend, Anki bridge,
      the thread that may call [cancel()]) is an oracle [Env], asked at
      the value of a logical clock.  The clock advances at every
      operation that touches data shared with the other thread or the
      outside world, and a pending [cancel()] is delivered there.
    - Local file operations (copy, write, remove) are assumed to
      succeed; backend calls may fail as the oracle says.
    - [float] values ([tts_delay], the time estimate) are kept abstract:
      a type [float] with the product of an [int] by a [float]. *)

From Stdlib Require Import ZArith List String Ascii Bool Lia QArith.
From stdpp Require Import base option list gmap strings.

Local Open Scope string_scope.
Local Open Scope Z_scope.

(** ** Data model (core.py 23-73) *)

Inductive ProcessingState :=
| IDLE | READING_WORDS | GENERATING_CONTENT | GENERATING_AUDIO
| COPYING_AUDIO | SENDING_TO_ANKI | COMPLETED | FAILED | CANCELLED.

Global Instance ProcessingState_eq_dec : EqDecision ProcessingState.
Proof. solve_decision. Defined.

Record ProcessingStats (F : Type) := mkStats {
  total_words : Z;
  processed_words : Z;
  failed_words : Z;
  skipped_words : Z;
  current_word : option string;
  estimated_time_remaining : option F;
  start_time : option Z
}.
Arguments mkStats {F}.
Arguments total_words {F}.
Arguments processed_words {F}.
Arguments failed_words {F}.
Arguments skipped_words {F}.
Arguments current_word {F}.
Arguments estimated_time_remaining {F}.
Arguments start_time {F}.

(** [ProcessingStats()] with the dataclass defaults. *)
Definition ProcessingStats_default {F} : ProcessingStats F :=
  mkStats 0 0 0 0 None None None.

Record GeneratorConfig (F : Type) := mkConfig {
  words_file : string;
  deck_name : string;
  model_name : string;
  reverse_model_name : string;
  audio_dir : string;
  audio_cache_dir : string;
  checkpoint_file : string;
  tts_delay : F;
  skip_existing_audio : bool;
  test_mode : bool;
  generate_reverse_cards : bool;
  (** [callback is not None] in [__init__] *)
  has_callback : bool
}.
Arguments mkConfig {F}.
Arguments words_file {F}.
Arguments deck_name {F}.
Arguments model_name {F}.
Arguments reverse_model_name {F}.
Arguments audio_dir {F}.
Arguments audio_cache_dir {F}.
Arguments checkpoint_file {F}.
Arguments tts_delay {F}.
Arguments skip_existing_audio {F}.
Arguments test_mode {F}.
Arguments generate_reverse_cards {F}.
Arguments has_callback {F}.

Record FlashcardData := mkCard {
  word : string;
  translation : string;
  example_sentence_da : string;
  example_sentence_en : string;
  audio_word_file : option string;
  audio_sentence_file : option string;
  error : option string
}.

Global Instance FlashcardData_eq_dec : EqDecision FlashcardData.
Proof. solve_decision. Defined.

Definition set_audio_word_file (v : option string) (c : FlashcardData) :=
  mkCard (word c) (translation c) (example_sentence_da c)
         (example_sentence_en c) v (audio_sentence_file c) (error c).
Definition set_audio_sentence_file (v : option string) (c : FlashcardData) :=
  mkCard (word c) (translation c) (example_sentence_da c)
         (example_sentence_en c) (audio_word_file c) v (error c).
Definition set_error (v : option string) (c : FlashcardData) :=
  mkCard (word c) (translation c) (example_sentence_da c)
         (example_sentence_en c) (audio_word_file c)
         (audio_sentence_file c) v.

(** Python truth value of an [Optional[str]]: [None] and the empty
    string are false, every other string is true.  This is the test the
    code applies in [if flashcard.error:], [if word_cached:] and
    [if flashcard.audio_word_file:]. *)
Definition truthy (o : option string) : bool :=
  match o with
  | Some s => negb (String.eqb s "")
  | None => false
  end.

(** ** Strings: [str.strip], [normalize_filename] (core.py 258, 265-271)

    A character is a code point below 256, which covers the Danish
    alphabet; [is_space] is Python's [str.isspace] / regex [\s] on that
    range. *)

Definition is_space (c : ascii) : bool :=
  let n := N_of_ascii c in
  ((9 <=? n) && (n <=? 13) || (28 <=? n) && (n <=? 32)
   || (n =? 133) || (n =? 160))%N.

Fixpoint lstrip (s : string) : string :=
  match s with
  | String c r => if is_space c then lstrip r else s
  | EmptyString => EmptyString
  end.

Fixpoint rstrip (s : string) : string :=
  match s with
  | String c r =>
      match rstrip r with
      | EmptyString => if is_space c then EmptyString else String c EmptyString
      | r' => String c r'
      end
  | EmptyString => EmptyString
  end.

Definition strip (s : string) : string := rstrip (lstrip s).

Definition startswith_hash (s : string) : bool :=
  match s with
  | String c _ => Ascii.eqb c "#"%char
  | EmptyString => false
  end.

(** [closes s]: a [>] occurs in [s] before any newline, so that the
    non-greedy pattern [<.*?>] matches when [s] follows a [<]. *)
Fixpoint closes (s : string) : bool :=
  match s with
  | String c r =>
      if Ascii.eqb c ">"%char then true
      else if Ascii.eqb c (ascii_of_N 10) then false
      else closes r
  | EmptyString => false
  end.

(** [re.sub(r"<.*?>", "", text)] *)
Fixpoint strip_tags (in_tag : bool) (s : string) : string :=
  match s with
  | String c r =>
      if in_tag then
        if Ascii.eqb c ">"%char then strip_tags false r else strip_tags true r
      else if Ascii.eqb c "<"%char && closes r then strip_tags true r
      else String c (strip_tags false r)
  | EmptyString => EmptyString
  end.

(** [re.sub(r"\s+", "_", text)] *)
Fixpoint squeeze_spaces (in_run : bool) (s : string) : string :=
  match s with
  | String c r =>
      if is_space c then
        if in_run then squeeze_spaces true r
        else String "_"%char (squeeze_spaces true r)
      else String c (squeeze_spaces false r)
  | EmptyString => EmptyString
  end.

Definition is_safe_char (c : ascii) : bool :=
  let n := N_of_ascii c in
  ((97 <=? n) && (n <=? 122) || (65 <=? n) && (n <=? 90)
   || (48 <=? n) && (n <=? 57) || (n =? 95) || (n =? 45))%N.

(** [re.sub(r"[^a-zA-Z0-9_-]", "", text)] *)
Fixpoint keep_safe (s : string) : string :=
  match s with
  | String c r => if is_safe_char c then String c (keep_safe r) else keep_safe r
  | EmptyString => EmptyString
  end.

Definition normalize_filename (text : string) : string :=
  keep_safe (squeeze_spaces false (strip_tags false text)).

(** [os.path.join(d, f)] for a relative file name [f] and a directory
    written without trailing separator. *)
Definition path_join (d f : string) : string := d ++ "/" ++ f.

(** ** The outside world *)

(** Outcome of [g_generate(prompt)] followed by [json.loads] and the
    four field lookups (core.py 284-295). *)
Inductive content_result :=
| ContentOk (w t da en : string)
| ContentBadJson                      (* json.JSONDecodeError *)
| ContentError (msg : string).        (* any other Exception, [str(e)] *)

(** Outcome of [tts_generate(text, filename=...)].  The module [tts] is
    a collaborator: on success it has written one artifact, at a path
    the oracle names; it fails with a [ClientError] carrying a status
    code, or with any other exception. *)
Inductive tts_result :=
| TtsOk (artifact : string)
| TtsClientError (status_code : Z) (msg : string)
| TtsException (msg : string).

Record note := mkNote {
  deckName : string;
  modelName : string;
  fields : list (string * string);
  allowDuplicate : bool
}.

Inductive pyexn :=
| FileNotFoundError (msg : string)
| ValueError (msg : string).

Record Env := mkEnv {
  (** the other thread calls [cancel()] at this instant *)
  cancel_req : nat -> bool;
  (** lines of [words_file]; [None] when the file does not exist *)
  words_lines : option (list string);
  gemini : nat -> string -> content_result;
  tts : nat -> string -> string -> tts_result;
  (** [akc(action="getMediaDirPath")]: a path, or an exception *)
  media_dir_query : nat -> string + string;
  platform_system : string;
  home : string;
  dir_exists : string -> bool;
  (** [akc(action="addNote", note=...)]: [None], or [Some (str e)] *)
  add_note : nat -> note -> option string;
  now : Z
}.

Inductive audio_part := WordAudio | SentenceAudio.
Inductive note_kind := Forward | Reverse.

Global Instance audio_part_eq_dec : EqDecision audio_part.
Proof. solve_decision. Defined.
Global Instance note_kind_eq_dec : EqDecision note_kind.
Proof. solve_decision. Defined.

(** Messages handed to the callback, one constructor per message of the
    source. *)
Inductive log_msg :=
| MsgCancelling
| MsgCacheMetadataLoadFailed
| MsgLoadedCheckpoint (n : nat)
| MsgCheckpointLoadFailed
| MsgReadingWords
| MsgLoadedWords (n : Z)
| MsgProcessing (i n : Z) (w : string)
| MsgSkipping (w : string)
| MsgGeneratingContent (w : string)
| MsgGeneratedContent (w : string)
| MsgContentFailed (error_msg : string)
| MsgUsingCached (w : string)
| MsgGeneratingWordAudio (w : string)
| MsgGeneratedWordAudio (w : string)
| MsgRateLimit
| MsgGeneratingSentenceAudio (w : string)
| MsgGeneratedSentenceAudio (w : string)
| MsgCopying
| MsgMediaDirQueryFailed (e : string)
| MsgMediaDirNotFound (d : string)
| MsgMediaDir (d : string)
| MsgCopied (f : string)
| MsgSending
| MsgAddedForward (w : string)
| MsgFailedForward (w e : string)
| MsgAddedReverse (w : string)
| MsgFailedReverse (w e : string)
| MsgCompleted (successful total : Z)
| MsgRunFailed (e : pyexn).

(** What a generator is created with and runs against: the numeric type
    of Python's [float] with the product [n * x] of an [int] by a
    [float], the digest [hashlib.md5(text.encode('utf-8')).hexdigest()],
    the configuration and the outside world. *)
Class World := mkWorld {
  float : Type;
  int_mul_float : Z -> float -> float;
  md5_hex : string -> string;
  config : GeneratorConfig float;
  env : Env
}.

Section Pipeline.

Context {W : World}.

(** Every interaction with the outside world, labelled by its call site;
    [r] is the flashcard the enclosing code holds. *)
Inductive event :=
| EvSetState (st : ProcessingState)               (* self.state = ... *)
| EvCallback (st : ProcessingState) (msg : log_msg)
| EvGemini (w : string)                           (* g_generate, 285 *)
| EvTts (r : nat) (part : audio_part) (text filename : string)
| EvSleepInt (n : Z)                              (* sleep(20) *)
| EvSleepFloat (x : float)                            (* sleep(tts_delay) *)
| EvCopyFromCache (r : nat) (src dst : string)    (* copy2, 340 *)
| EvCopyToCache (src dst : string)                (* copy2, 181 189 *)
| EvCopyToAnki (r : nat) (src dst : string)       (* copy2, 465 479 *)
| EvSaveMetadata
| EvSaveCheckpoint
| EvRemoveCheckpoint                              (* os.remove, 613 *)
| EvGetMediaDir
| EvAddNote (r : nat) (kind : note_kind) (n : note).

(** The generator object together with the files it owns.
    [checkpoint_disk]: [None] no file, [Some None] a file that does not
    load, [Some (Some m)] a file holding the mapping [m].
    [files] maps the path of an audio artifact to the text it speaks. *)
Record pstate := mkState {
  heap : list FlashcardData;
  checkpoint : gmap string nat;
  checkpoint_disk : option (option (gmap string FlashcardData));
  audio_cache_metadata : gmap string string;
  metadata_disk : option (option (gmap string string));
  files : gmap string string;
  stats : ProcessingStats float;
  state : ProcessingState;
  cancelled : bool;
  clock : nat;
  trace : list event
}.

Definition set_heap v s :=
  mkState v (checkpoint s) (checkpoint_disk s) (audio_cache_metadata s)
    (metadata_disk s) (files s) (stats s) (state s) (cancelled s) (clock s)
    (trace s).
Definition set_checkpoint v s :=
  mkState (heap s) v (checkpoint_disk s) (audio_cache_metadata s)
    (metadata_disk s) (files s) (stats s) (state s) (cancelled s) (clock s)
    (trace s).
Definition set_checkpoint_disk v s :=
  mkState (heap s) (checkpoint s) v (audio_cache_metadata s)
    (metadata_disk s) (files s) (stats s) (state s) (cancelled s) (clock s)
    (trace s).
Definition set_audio_cache_metadata v s :=
  mkState (heap s) (checkpoint s) (checkpoint_disk s) v
    (metadata_disk s) (files s) (stats s) (state s) (cancelled s) (clock s)
    (trace s).
Definition set_metadata_disk v s :=
  mkState (heap s) (checkpoint s) (checkpoint_disk s) (audio_cache_metadata s)
    v (files s) (stats s) (state s) (cancelled s) (clock s) (trace s).
Definition set_files v s :=
  mkState (heap s) (checkpoint s) (checkpoint_disk s) (audio_cache_metadata s)
    (metadata_disk s) v (stats s) (state s) (cancelled s) (clock s) (trace s).
Definition set_stats v s :=
  mkState (heap s) (checkpoint s) (checkpoint_disk s) (audio_cache_metadata s)
    (metadata_disk s) (files s) v (state s) (cancelled s) (clock s) (trace s).
Definition set_state v s :=
  mkState (heap s) (checkpoint s) (checkpoint_disk s) (audio_cache_metadata s)
    (metadata_disk s) (files s) (stats s) v (cancelled s) (clock s) (trace s).
Definition set_cancelled v s :=
  mkState (heap s) (checkpoint s) (checkpoint_disk s) (audio_cache_metadata s)
    (metadata_disk s) (files s) (stats s) (state s) v (clock s) (trace s).
Definition set_clock v s :=
  mkState (heap s) (checkpoint s) (checkpoint_disk s) (audio_cache_metadata s)
    (metadata_disk s) (files s) (stats s) (state s) (cancelled s) v (trace s).
Definition set_trace v s :=
  mkState (heap s) (checkpoint s) (checkpoint_disk s) (audio_cache_metadata s)
    (metadata_disk s) (files s) (stats s) (state s) (cancelled s) (clock s) v.

Definition set_current_word v (st : ProcessingStats float) :=
  mkStats (total_words st) (processed_words st) (failed_words st)
    (skipped_words st) v (estimated_time_remaining st) (start_time st).
Definition set_total_words v (st : ProcessingStats float) :=
  mkStats v (processed_words st) (failed_words st)
    (skipped_words st) (current_word st) (estimated_time_remaining st)
    (start_time st).
Definition set_processed_words v (st : ProcessingStats float) :=
  mkStats (total_words st) v (failed_words st)
    (skipped_words st) (current_word st) (estimated_time_remaining st)
    (start_time st).
Definition set_failed_words v (st : ProcessingStats float) :=
  mkStats (total_words st) (processed_words st) v
    (skipped_words st) (current_word st) (estimated_time_remaining st)
    (start_time st).
Definition set_estimated_time_remaining (v : option float)
  (st : ProcessingStats float) : ProcessingStats float :=
  mkStats (total_words st) (processed_words st) (failed_words st)
    (skipped_words st) (current_word st) v (start_time st).
Definition set_start_time v (st : ProcessingStats float) :=
  mkStats (total_words st) (processed_words st) (failed_words st)
    (skipped_words st) (current_word st) (estimated_time_remaining st) v.

(** ** The state monad of the methods *)

Definition M (A : Type) : Type := pstate -> A * pstate.

Definition ret {A} (a : A) : M A := fun s => (a, s).
Definition bind {A B} (m : M A) (k : A -> M B) : M B :=
  fun s => let (a, s') := m s in k a s'.

Notation "x <- m ;; k" := (bind m (fun x => k))
  (at level 100, m at next level, right associativity).
Notation "m ;;; k" := (bind m (fun _ => k))
  (at level 100, right associativity).

Definition modify (f : pstate -> pstate) : M unit := fun s => (tt, f s).
Definition gets {A} (f : pstate -> A) : M A := fun s => (f s, s).

Definition record_event (e : event) (s : pstate) : pstate :=
  set_trace (trace s ++ [e]) s.

(** [if self.callback: self.callback(state, self.stats, message)] *)
Definition callback_events (st : ProcessingState) (msg : log_msg)
  : list event :=
  if has_callback config then [EvCallback st msg] else [].

Definition callback (st : ProcessingState) (msg : log_msg) (s : pstate) :=
  set_trace (trace s ++ callback_events st msg) s.

(** [cancel()] (core.py 207-210), run by the other thread. *)
Definition cancel (s : pstate) : pstate :=
  callback CANCELLED MsgCancelling
    (record_event (EvSetState CANCELLED)
       (set_state CANCELLED (set_cancelled true s))).

(** One instant of the pipeline thread: a [cancel()] requested for this
    instant runs first; the instant is returned. *)
Definition tick : M nat := fun s =>
  let s1 := if cancel_req env (clock s) then cancel s else s in
  (clock s, set_clock (S (clock s)) s1).

(** Reading [self.cancelled]. *)
Definition poll_cancelled : M bool :=
  _ <- tick ;; gets cancelled.

(** [_update_state] (core.py 196-200) *)
Definition _update_state (st : ProcessingState) (msg : log_msg) : M unit :=
  _ <- tick ;;
  modify (fun s => callback st msg
                     (record_event (EvSetState st) (set_state st s))).

(** [_log] (core.py 202-205) *)
Definition _log (msg : log_msg) : M unit :=
  _ <- tick ;;
  modify (fun s => callback (state s) msg s).

(** An outside call: recorded at its instant, which is returned. *)
Definition emit (e : event) : M nat :=
  t <- tick ;; modify (record_event e) ;;; ret t.

Definition sleep_int (n : Z) : M unit := emit (EvSleepInt n) ;;; ret tt.
Definition sleep_float (x : float) : M unit := emit (EvSleepFloat x) ;;; ret tt.

(** ** The object store *)

Definition no_card : FlashcardData := mkCard "" "" "" "" None None None.

Definition card (r : nat) (s : pstate) : FlashcardData :=
  default no_card (heap s !! r).

Definition get_card (r : nat) : M FlashcardData := gets (card r).

Definition update_card (r : nat) (f : FlashcardData -> FlashcardData)
  : M unit :=
  modify (fun s => set_heap (alter f r (heap s)) s).

(** A new [FlashcardData(...)] object. *)
Definition new_card (c : FlashcardData) : M nat := fun s =>
  (length (heap s), set_heap (heap s ++ [c]) s).

Definition exists_file (p : string) (s : pstate) : bool :=
  bool_decide (is_Some (files s !! p)).

(** [shutil.copy2(src, dst)], recorded as [e].  Every copy of the source
    is guarded by an existence test of [src]. *)
Definition copy_file (src dst : string) (s : pstate) : pstate :=
  set_files (match files s !! src with
             | Some a => <[dst := a]> (files s)
             | None => files s
             end) s.

Definition copy2 (e : event) (src dst : string) : M unit :=
  emit e ;;; modify (copy_file src dst).

(** ** Cache store (core.py 146-194) *)

Definition save_audio_cache_metadata : M unit :=
  emit EvSaveMetadata ;;;
  modify (fun s => set_metadata_disk (Some (Some (audio_cache_metadata s))) s).

Definition get_audio_cache_key (text : string) : string := md5_hex text.

Definition get_cached_audio (text : string) : M (option string) :=
  let cache_key := get_audio_cache_key text in
  gets (fun s =>
    match audio_cache_metadata s !! cache_key with
    | Some cached_file =>
        let cached_path := path_join (audio_cache_dir config) cached_file in
        if exists_file cached_path s then Some cached_file else None
    | None => None
    end).

Definition cache_audio (text source_filename : string) : M (option string) :=
  let cache_key := get_audio_cache_key text in
  let source_path := path_join (audio_dir config) source_filename in
  let cache_filename := cache_key ++ ".wav" in
  let cache_path := path_join (audio_cache_dir config) cache_filename in
  let store (src : string) : M (option string) :=
    copy2 (EvCopyToCache src cache_path) src cache_path ;;;
    modify (fun s => set_audio_cache_metadata
                       (<[cache_key := cache_filename]> (audio_cache_metadata s))
                       s) ;;;
    save_audio_cache_metadata ;;;
    ret (Some cache_filename) in
  here <- gets (exists_file source_path) ;;
  if here : bool then store source_path
  else
    let source_alt := source_path ++ ".wav" in
    alt <- gets (exists_file source_alt) ;;
    if alt : bool then store source_alt else ret None.

(** ** Checkpoint store (core.py 212-246) *)

(** The mapping [save_checkpoint] serialises: every checkpointed word
    with the present fields of its record. *)
Definition checkpoint_snapshot (s : pstate) : gmap string FlashcardData :=
  (fun r => card r s) <$> checkpoint s.

Definition save_checkpoint : M unit :=
  emit EvSaveCheckpoint ;;;
  modify (fun s => set_checkpoint_disk (Some (Some (checkpoint_snapshot s))) s).

(** [self.checkpoint = {k: FlashcardData( **v ) ...}]: one new object per
    entry of the file. *)
Definition load_checkpoint : M unit :=
  disk <- gets checkpoint_disk ;;
  match disk with
  | None => ret tt
  | Some None => _log MsgCheckpointLoadFailed
  | Some (Some m) =>
      let entries := map_to_list m in
      base <- gets (fun s => length (heap s)) ;;
      modify (fun s => set_heap (heap s ++ entries.*2) s) ;;;
      modify (set_checkpoint
                (list_to_map (zip (entries.*1)
                                  (seq base (length entries))))) ;;;
      _log (MsgLoadedCheckpoint (length entries))
  end.

(** ** Reading the word list (core.py 248-263) *)

Definition keep_line (w : string) : bool :=
  negb (String.eqb w "") && negb (startswith_hash w).

Definition read_words : M (pyexn + list string) :=
  _update_state READING_WORDS MsgReadingWords ;;;
  match words_lines env with
  | None => ret (inl (FileNotFoundError (words_file config)))
  | Some lines =>
      let words := List.filter keep_line (List.map strip lines) in
      _log (MsgLoadedWords (Z.of_nat (length words))) ;;;
      ret (inr words)
  end.

(** ** Content stage (core.py 273-319) *)

Definition error_card (w error_msg : string) : FlashcardData :=
  mkCard w "" "" "" None None (Some error_msg).

Definition generate_content_for_word (w : string) : M (option nat) :=
  ck <- gets checkpoint ;;
  match ck !! w with
  | Some r =>
      _log (MsgSkipping w) ;;;
      ret (Some r)
  | None =>
      modify (fun s => set_stats (set_current_word (Some w) (stats s)) s) ;;;
      _update_state GENERATING_CONTENT (MsgGeneratingContent w) ;;;
      t <- emit (EvGemini w) ;;
      match gemini env t w with
      | ContentOk w' tr da en =>
          r <- new_card (mkCard w' tr da en None None None) ;;
          _log (MsgGeneratedContent w) ;;;
          ret (Some r)
      | ContentBadJson =>
          let error_msg := "Failed to parse JSON for " ++ w in
          _log (MsgContentFailed error_msg) ;;;
          r <- new_card (error_card w error_msg) ;;
          ret (Some r)
      | ContentError e =>
          let error_msg := "Error generating content for " ++ w ++ ": " ++ e in
          _log (MsgContentFailed error_msg) ;;;
          r <- new_card (error_card w error_msg) ;;
          ret (Some r)
      end
  end.

(** ** Audio stage (core.py 321-417) *)

(** [tts_generate(text, filename=...)]: on success the artifact named by
    the oracle exists and speaks [text]. *)
Definition tts_generate (r : nat) (part : audio_part) (text filename : string)
  : M tts_result :=
  t <- emit (EvTts r part text filename) ;;
  let res := tts env t text filename in
  match res with
  | TtsOk artifact =>
      modify (fun s => set_files (<[artifact := text]> (files s)) s) ;;;
      ret res
  | _ => ret res
  end.

(** [str(e)] of a failed call. *)
Definition tts_error_text (res : tts_result) : string :=
  match res with
  | TtsOk _ => ""
  | TtsClientError _ msg => msg
  | TtsException msg => msg
  end.

Definition fail_card (r : nat) (msg : string) : M bool :=
  update_card r (set_error (Some msg)) ;;; ret false.

(** Lines 336-379: the word audio.  Returns [false] where the source
    executes [return False]. *)
Definition generate_word_audio (r : nat) (fc_word word_file : string)
  : M bool :=
  let word_path := path_join (audio_dir config) (word_file ++ ".wav") in
  word_cached <- get_cached_audio fc_word ;;
  if truthy word_cached then
    let cache_path :=
      path_join (audio_cache_dir config) (default "" word_cached) in
    copy2 (EvCopyFromCache r cache_path word_path) cache_path word_path ;;;
    update_card r (set_audio_word_file (Some (word_file ++ ".wav"))) ;;;
    _log (MsgUsingCached fc_word) ;;;
    ret true
  else
    _update_state GENERATING_AUDIO (MsgGeneratingWordAudio fc_word) ;;;
    res <- tts_generate r WordAudio fc_word word_file ;;
    match res with
    | TtsOk _ =>
        update_card r (set_audio_word_file (Some (word_file ++ ".wav"))) ;;;
        cache_audio fc_word (word_file ++ ".wav") ;;;
        _log (MsgGeneratedWordAudio fc_word) ;;;
        c <- poll_cancelled ;;
        (if c : bool then ret tt else sleep_float (tts_delay config)) ;;;
        ret true
    | TtsClientError status_code e =>
        if status_code =? 429 then
          _log MsgRateLimit ;;;
          sleep_int 20 ;;;
          res2 <- tts_generate r WordAudio fc_word word_file ;;
          match res2 with
          | TtsOk _ =>
              update_card r (set_audio_word_file (Some (word_file ++ ".wav"))) ;;;
              cache_audio fc_word (word_file ++ ".wav") ;;;
              sleep_float (tts_delay config) ;;;
              ret true
          | retry_error =>
              fail_card r ("Failed to generate word audio: "
                           ++ tts_error_text retry_error)
          end
        else fail_card r ("TTS error: " ++ e)
    | TtsException e => fail_card r ("Error generating word audio: " ++ e)
    end.

(** Lines 384-415: the sentence audio, never cached. *)
Definition generate_sentence_audio (r : nat) (fc_word sentence sentence_file : string)
  : M bool :=
  _update_state GENERATING_AUDIO (MsgGeneratingSentenceAudio fc_word) ;;;
  res <- tts_generate r SentenceAudio sentence sentence_file ;;
  match res with
  | TtsOk _ =>
      update_card r (set_audio_sentence_file (Some (sentence_file ++ ".wav"))) ;;;
      _log (MsgGeneratedSentenceAudio fc_word) ;;;
      c <- poll_cancelled ;;
      (if c : bool then ret tt else sleep_float (tts_delay config)) ;;;
      ret true
  | TtsClientError status_code e =>
      if status_code =? 429 then
        _log MsgRateLimit ;;;
        sleep_int 20 ;;;
        res2 <- tts_generate r SentenceAudio sentence sentence_file ;;
        match res2 with
        | TtsOk _ =>
            update_card r
              (set_audio_sentence_file (Some (sentence_file ++ ".wav"))) ;;;
            sleep_float (tts_delay config) ;;;
            ret true
        | retry_error =>
            fail_card r ("Failed to generate sentence audio: "
                         ++ tts_error_text retry_error)
        end
      else fail_card r ("TTS error: " ++ e)
  | TtsException e => fail_card r ("Error generating sentence audio: " ++ e)
  end.

Definition generate_audio_for_flashcard (r : nat) : M bool :=
  c <- poll_cancelled ;;
  if c : bool then ret false else
  fc <- get_card r ;;
  if truthy (error fc) then ret false else
  let word_file := normalize_filename (word fc) in
  let sentence_file := normalize_filename (word fc) ++ "_sentence" in
  ok <- generate_word_audio r (word fc) word_file ;;
  if negb ok then ret false else
  c <- poll_cancelled ;;
  if c : bool then ret false else
  fc <- get_card r ;;
  generate_sentence_audio r (word fc) (example_sentence_da fc) sentence_file.

(** ** Publish stage (core.py 419-541) *)

Definition fallback_media_dir : string :=
  let tail := ["Anki2"; "User 1"; "collection.media"] in
  let parts :=
    if String.eqb (platform_system env) "Windows"
    then "AppData" :: "Roaming" :: tail
    else if String.eqb (platform_system env) "Darwin"
    then "Library" :: "Application Support" :: tail
    else ".local" :: "share" :: tail in
  fold_left path_join parts (home env).

Definition get_anki_media_dir : M string :=
  t <- emit EvGetMediaDir ;;
  match media_dir_query env t with
  | inl d => ret d
  | inr e =>
      _log (MsgMediaDirQueryFailed e) ;;;
      ret fallback_media_dir
  end.

(** Lines 455-466 and 469-480: one audio file of one record. *)
Definition copy_one_file (r : nat) (anki_media_dir file : string) : M unit :=
  let source := path_join (audio_dir config) file in
  let dest := path_join anki_media_dir file in
  here <- gets (exists_file source) ;;
  alt <- gets (exists_file (source ++ ".wav")) ;;
  let source := if here : bool then source
                else if alt : bool then source ++ ".wav" else source in
  found <- gets (exists_file source) ;;
  if found : bool then
    copy2 (EvCopyToAnki r source dest) source dest ;;;
    _log (MsgCopied source)
  else ret tt.

(** Body of the loop at line 450. *)
Definition copy_step (anki_media_dir : string) (r : nat) : M unit :=
  fc <- get_card r ;;
  if truthy (error fc) then ret tt else
  c <- poll_cancelled ;;
  if c : bool then ret tt else
  (if truthy (audio_word_file fc)
   then copy_one_file r anki_media_dir (default "" (audio_word_file fc))
   else ret tt) ;;;
  (if truthy (audio_sentence_file fc)
   then copy_one_file r anki_media_dir (default "" (audio_sentence_file fc))
   else ret tt).

Fixpoint for_each {A} (body : A -> M unit) (l : list A) : M unit :=
  match l with
  | [] => ret tt
  | x :: l' => body x ;;; for_each body l'
  end.

Definition copy_audio_to_anki (flashcards : list nat) : M bool :=
  _update_state COPYING_AUDIO MsgCopying ;;;
  anki_media_dir <- get_anki_media_dir ;;
  if negb (dir_exists env anki_media_dir) then
    _log (MsgMediaDirNotFound anki_media_dir) ;;;
    ret false
  else
    _log (MsgMediaDir anki_media_dir) ;;;
    for_each (copy_step anki_media_dir) flashcards ;;;
    ret true.

Definition sound_field (f : option string) : string :=
  if truthy f then "[sound:" ++ default "" f ++ "]" else "".

Definition forward_note (fc : FlashcardData) : note :=
  mkNote (deck_name config) (model_name config)
    [("Word", "<b>" ++ word fc ++ "</b>");
     ("Danish Sentence", example_sentence_da fc);
     ("Word Translation", "<b>" ++ translation fc ++ "</b>");
     ("Sentence Translation", example_sentence_en fc);
     ("Audio", sound_field (audio_word_file fc));
     ("Sentence Audio", sound_field (audio_sentence_file fc))]
    false.

Definition reverse_note (fc : FlashcardData) : note :=
  mkNote (deck_name config) (reverse_model_name config)
    [("English", "<b>" ++ translation fc ++ "</b>");
     ("English Sentence", example_sentence_en fc);
     ("Danish Word", "<b>" ++ word fc ++ "</b>");
     ("Danish Sentence", example_sentence_da fc);
     ("Audio", sound_field (audio_word_file fc));
     ("Sentence Audio", sound_field (audio_sentence_file fc))]
    false.

(** [akc(action="addNote", note=...)] *)
Definition akc_add_note (r : nat) (kind : note_kind) (n : note)
  : M (option string) :=
  t <- emit (EvAddNote r kind n) ;;
  ret (add_note env t n).

(** Body of the loop at line 490. *)
Definition send_step (r : nat) : M unit :=
  fc <- get_card r ;;
  if truthy (error fc) then ret tt else
  c <- poll_cancelled ;;
  if c : bool then ret tt else
  res <- akc_add_note r Forward (forward_note fc) ;;
  match res with
  | Some e =>
      _log (MsgFailedForward (word fc) e) ;;;
      update_card r (set_error (Some e))
  | None =>
      _log (MsgAddedForward (word fc)) ;;;
      if generate_reverse_cards config then
        fc <- get_card r ;;
        res <- akc_add_note r Reverse (reverse_note fc) ;;
        match res with
        | Some e => _log (MsgFailedReverse (word fc) e)
        | None => _log (MsgAddedReverse (word fc))
        end
      else ret tt
  end.

Definition send_to_anki (flashcards : list nat) : M unit :=
  _update_state SENDING_TO_ANKI MsgSending ;;;
  for_each send_step flashcards.

(** ** Orchestrator (core.py 543-617) *)

Definition add_failed : M unit :=
  modify (fun s => set_stats
                     (set_failed_words (failed_words (stats s) + 1) (stats s))
                     s).

(** Lines 562-575: one word of the content loop; the record is appended
    to [flashcards]. *)
Definition content_step (n i : Z) (w : string) (flashcards : list nat)
  : M (list nat) :=
  _log (MsgProcessing i n w) ;;;
  flashcard <- generate_content_for_word w ;;
  flashcards' <-
    match flashcard with
    | Some r =>
        fc <- get_card r ;;
        (if negb (truthy (error fc)) then
           modify (fun s => set_checkpoint (<[w := r]> (checkpoint s)) s) ;;;
           save_checkpoint
         else add_failed) ;;;
        ret (flashcards ++ [r])%list
    | None => add_failed ;;; ret flashcards
    end ;;
  modify (fun s => set_stats (set_processed_words i (stats s)) s) ;;;
  ret flashcards'.

(** Lines 558-575: [for i, word in enumerate(words, 1)], with its
    [break]. *)
Fixpoint content_loop (n i : Z) (words : list string) (flashcards : list nat)
  : M (list nat) :=
  match words with
  | [] => ret flashcards
  | w :: rest =>
      c <- poll_cancelled ;;
      if c : bool then ret flashcards else
      flashcards' <- content_step n i w flashcards ;;
      content_loop n (i + 1) rest flashcards'
  end.

(** Lines 589-595: the audio work on one record that carries no error. *)
Definition audio_step (n i : Z) (r : nat) : M unit :=
  let remaining_audio := (n - i) * 2 in
  modify (fun s => set_stats
                     (set_estimated_time_remaining
                        (Some (int_mul_float remaining_audio (tts_delay config)))
                        (stats s)) s) ;;;
  success <- generate_audio_for_flashcard r ;;
  if negb success then add_failed else ret tt.

(** Lines 582-595: [for i, flashcard in enumerate(flashcards, 1)]; [n]
    is [len(flashcards)]. *)
Fixpoint audio_loop (n i : Z) (l : list nat) : M unit :=
  match l with
  | [] => ret tt
  | r :: rest =>
      c <- poll_cancelled ;;
      if c : bool then ret tt else
      fc <- get_card r ;;
      (if truthy (error fc) then ret tt else audio_step n i r) ;;;
      audio_loop n (i + 1) rest
  end.

Definition count_successful (flashcards : list nat) (s : pstate) : Z :=
  Z.of_nat (length (List.filter
                      (fun r => negb (truthy (error (card r s)))) flashcards)).

(** Lines 600-613. *)
Definition publish_and_finish (flashcards : list nat) : M unit :=
  staged <- copy_audio_to_anki flashcards ;;
  (if staged : bool then send_to_anki flashcards else ret tt) ;;;
  successful <- gets (count_successful flashcards) ;;
  _update_state COMPLETED
    (MsgCompleted successful (Z.of_nat (length flashcards))) ;;;
  disk <- gets checkpoint_disk ;;
  match disk with
  | Some _ =>
      emit EvRemoveCheckpoint ;;;
      modify (set_checkpoint_disk None)
  | None => ret tt
  end.

(** Lines 577-613: what follows the content loop. *)
Definition after_content (flashcards : list nat) : M unit :=
  c <- poll_cancelled ;;
  if c : bool then ret tt else
  (if test_mode config then ret tt
   else audio_loop (Z.of_nat (length flashcards)) 1 flashcards) ;;;
  c <- poll_cancelled ;;
  if c : bool then ret tt else
  publish_and_finish flashcards.

(** The [except Exception] of [run]: state [FAILED], then re-raise. *)
Definition run_failed (e : pyexn) : M (option pyexn) :=
  _update_state FAILED (MsgRunFailed e) ;;;
  ret (Some e).

(** [run()]; the result is the exception it re-raises, if any. *)
Definition run : M (option pyexn) :=
  modify (fun s => set_stats (set_start_time (Some (now env)) (stats s)) s) ;;;
  res <- read_words ;;
  match res with
  | inl e => run_failed e
  | inr words =>
      let n := Z.of_nat (length words) in
      modify (fun s => set_stats (set_total_words n (stats s)) s) ;;;
      match words with
      | [] => run_failed (ValueError "No words to process")
      | _ =>
          flashcards <- content_loop n 1 words [] ;;
          after_content flashcards ;;;
          ret None
      end
  end.

(** [__init__] (core.py 118-133) on the files found on disk. *)
Definition load_audio_cache_metadata : M (gmap string string) :=
  disk <- gets metadata_disk ;;
  match disk with
  | Some (Some m) => ret m
  | Some None => _log MsgCacheMetadataLoadFailed ;;; ret ∅
  | None => ret ∅
  end.

Definition blank (ckpt : option (option (gmap string FlashcardData)))
    (meta : option (option (gmap string string)))
    (fs : gmap string string) : pstate :=
  mkState [] ∅ ckpt ∅ meta fs ProcessingStats_default IDLE false 0%nat [].

Definition init (ckpt : option (option (gmap string FlashcardData)))
    (meta : option (option (gmap string string)))
    (fs : gmap string string) : pstate :=
  snd ((load_checkpoint ;;;
        m <- load_audio_cache_metadata ;;
        modify (set_audio_cache_metadata m)) (blank ckpt meta fs)).

End Pipeline.

Notation "x <- m ;; k" := (bind m (fun x => k))
  (at level 100, m at next level, right associativity).
Notation "m ;;; k" := (bind m (fun _ => k))
  (at level 100, right associativity).

(** * Observations on executions *)

Section Observations.

Context {W : World}.

(** Weakest precondition of a method. *)
Definition wp {A} (m : M A) (Q : A -> pstate -> Prop) (s : pstate) : Prop :=
  Q (m s).1 (m s).2.

(** [Pres R m]: running [m] relates the state before to the state
    after. *)
Definition Pres {A} (R : pstate -> pstate -> Prop) (m : M A) : Prop :=
  forall s, R s (m s).2.

(** The events a [cancel()] adds. *)
Definition cancel_events : list event :=
  EvSetState CANCELLED :: callback_events CANCELLED MsgCancelling.

(** The state after one instant, field by field. *)
Definition tick_state (s : pstate) : pstate :=
  let c := cancel_req env (clock s) in
  mkState (heap s) (checkpoint s) (checkpoint_disk s) (audio_cache_metadata s)
    (metadata_disk s) (files s) (stats s)
    (if c then CANCELLED else state s) (c || cancelled s) (S (clock s))
    (trace s ++ if c then cancel_events else []).

(** The events added between two states of one execution. *)
Definition new_events (s s' : pstate) : list event :=
  drop (length (trace s)) (trace s').

(** [emits p s s']: the trace grew from [s] to [s'], by events that all
    satisfy [p]. *)
Definition emits (p : event -> bool) (s s' : pstate) : Prop :=
  exists evs, trace s' = (trace s ++ evs)%list /\ forallb p evs = true.

(** Calls to the outside world, as opposed to state changes and
    callbacks. *)
Definition is_call (e : event) : bool :=
  match e with
  | EvSetState _ | EvCallback _ _ => false
  | _ => true
  end.

Definition calls (l : list event) : list event := List.filter is_call l.

Definition any_event (e : event) : bool := true.

(** [keeps_skipped s s']: the skipped count is the same in both
    states. *)
Definition keeps_skipped (s s' : pstate) : Prop :=
  skipped_words (stats s') = skipped_words (stats s).




(** Synthesis calls and the waits around them. *)
Definition is_synthesis (e : event) : bool :=
  match e with
  | EvTts _ _ _ _ | EvSleepInt _ | EvSleepFloat _ => true
  | _ => false
  end.

Definition synthesis_calls (l : list event) : list event :=
  List.filter is_synthesis l.

(** The retry policy for one synthesis call [call] whose first answer
    is a failure, [second] being the answer to the retry: the result
    [ok], the record [c] and the synthesis calls and waits [log] that
    the policy prescribes.  [ok_card] is the record with the audio
    reference of this call set, [failed_card msg] the record with error
    [msg]. *)
Definition retry_policy (call : event) (ok_card : FlashcardData)
    (failed_card : string -> FlashcardData) (what : string)
    (first second : tts_result)
    (ok : bool) (c : FlashcardData) (log : list event) : Prop :=
  match first with
  | TtsOk _ => True
  | TtsClientError status_code e =>
      if status_code =? 429 then
        match second with
        | TtsOk _ =>
            ok = true /\ c = ok_card /\
            log = [call; EvSleepInt 20; call; EvSleepFloat (tts_delay config)]
        | _ =>
            ok = false /\
            c = failed_card ("Failed to generate " ++ what ++ " audio: "
                             ++ tts_error_text second) /\
            log = [call; EvSleepInt 20; call]
        end
      else
        ok = false /\ c = failed_card ("TTS error: " ++ e) /\ log = [call]
  | TtsException e =>
      ok = false /\
      c = failed_card ("Error generating " ++ what ++ " audio: " ++ e) /\
      log = [call]
  end.

(** Calls of the speech backend. *)
Definition is_tts (e : event) : bool :=
  match e with EvTts _ _ _ _ => true | _ => false end.

Definition tts_calls (l : list event) : list event := List.filter is_tts l.

(** [cached_as text f s]: the cache metadata names the artifact [f] for
    [text], and [f] is in the cache directory. *)
Definition cached_as (text f : string) (s : pstate) : Prop :=
  audio_cache_metadata s !! get_audio_cache_key text = Some f /\
  truthy (Some f) = true /\
  is_Some (files s !! path_join (audio_cache_dir config) f).

(** The events by which a stage acts on the record [r]: a synthesis
    call for it, a copy of one of its audio files, a note built from
    it. *)
Definition acts_on (r : nat) (e : event) : bool :=
  match e with
  | EvTts r' _ _ _ | EvCopyFromCache r' _ _ | EvCopyToAnki r' _ _
  | EvAddNote r' _ _ => bool_decide (r' = r)
  | _ => false
  end.

Definition spares (r : nat) (e : event) : bool := negb (acts_on r e).

(** [leaves_alone r s s']: from [s] to [s'] the record [r] is unchanged
    and no event acts on it. *)
Definition leaves_alone (r : nat) (s s' : pstate) : Prop :=
  card r s' = card r s /\ emits (spares r) s s'.

(** The record [r] carries an error, as the code tests it
    ([if flashcard.error:]). *)
Definition errored (r : nat) (s : pstate) : Prop :=
  truthy (error (card r s)) = true.

(** [Ignores r m]: run on a state where [r] carries an error, [m]
    leaves [r] alone. *)
Definition Ignores {A} (r : nat) (m : M A) : Prop :=
  forall s, errored r s -> leaves_alone r s (m s).2.

(** The state changes made by the pipeline itself ([cancel()], run by
    the other thread, is the only writer of [CANCELLED]). *)
Definition transition_of (e : event) : option ProcessingState :=
  match e with
  | EvSetState CANCELLED => None
  | EvSetState st => Some st
  | _ => None
  end.

Definition transitions (l : list event) : list ProcessingState :=
  omap transition_of l.

(** [moves l s s']: from [s] to [s'] the pipeline went through the
    states [l], in this order. *)
Definition moves (l : list ProcessingState) (s s' : pstate) : Prop :=
  exists evs, trace s' = (trace s ++ evs)%list /\ transitions evs = l.

(** Events that change the pipeline state to nothing. *)
Definition no_transition (e : event) : bool :=
  match transition_of e with None => true | Some _ => false end.

(** Events of the phases before publication. *)
Definition early_state (st : ProcessingState) : bool :=
  match st with
  | READING_WORDS | GENERATING_CONTENT | GENERATING_AUDIO => true
  | _ => false
  end.

Definition early_event (e : event) : bool :=
  match transition_of e with None => true | Some st => early_state st end.

(** The ways a run can end, after its early phases. *)
Definition run_ending (tail : list ProcessingState) : Prop :=
  tail = [] \/ tail = [FAILED] \/
  tail = [COPYING_AUDIO; SENDING_TO_ANKI; COMPLETED] \/
  tail = [COPYING_AUDIO; COMPLETED].

(** [shape s s']: from [s] to [s'] the pipeline went through early
    states and then through one of the endings. *)
Definition shape (s s' : pstate) : Prop :=
  exists pre tail,
    moves (pre ++ tail) s s' /\ forallb early_state pre = true /\
    run_ending tail.

Definition Shaped {A} (m : M A) : Prop := forall s, shape s (m s).2.

(** The media directory that [copy_audio_to_anki], entered at [s],
    resolves. *)
Definition resolved_media_dir (s : pstate) : string :=
  match media_dir_query env (S (clock s)) with
  | inl d => d
  | inr _ => fallback_media_dir
  end.
(** A cancellation, once seen, stays. *)
Definition stays_cancelled (s s' : pstate) : Prop :=
  cancelled s = true -> cancelled s' = true.

(** The words that have an entry in the checkpoint file. *)
Definition disk_words (s : pstate) : gset string :=
  match checkpoint_disk s with
  | Some (Some m) => dom m
  | _ => ∅
  end.

(** The checkpoint file holds the words of the checkpoint in memory, and
    every checkpointed reference is a record of the object store. *)
Definition in_sync (s : pstate) : Prop :=
  disk_words s = dom (checkpoint s) /\
  forall w r, checkpoint s !! w = Some r -> (r < length (heap s))%nat.


(** [run] up to its content loop: the start time, the reading of the
    word list [words], the word count. *)
Definition run_prologue (words : list string) : M unit :=
  modify (fun s => set_stats (set_start_time (Some (now env)) (stats s)) s) ;;;
  _update_state READING_WORDS MsgReadingWords ;;;
  _log (MsgLoadedWords (Z.of_nat (length words))) ;;;
  modify (fun s => set_stats
                     (set_total_words (Z.of_nat (length words)) (stats s)) s).


(** The object store only grows. *)
Definition heap_grows (s s' : pstate) : Prop :=
  exists l, heap s' = (heap s ++ l)%list.

End Observations.

(** * Further observations

    Predicates for the properties of the parts of [core.py] that lie
    around the pipeline proper: file names, the word list, the
    counters, the stores across a restart. *)

(** Every character of [s] satisfies [p]. *)
Fixpoint all_chars (p : ascii -> bool) (s : string) : bool :=
  match s with
  | String c r => p c && all_chars p r
  | EmptyString => true
  end.

(** A character that [normalize_filename] deletes wherever it stands:
    not kept by the last substitution, not white space, not a bracket
    of a tag. *)
Definition dropped (c : ascii) : bool :=
  negb (is_safe_char c) && negb (is_space c) &&
  negb (Ascii.eqb c "<"%char) && negb (Ascii.eqb c ">"%char).

Definition same_or_dropped (c c' : ascii) : bool :=
  Ascii.eqb c c' || dropped c && dropped c'.

(** Two texts of the same length that differ only where both have a
    [dropped] character. *)
Fixpoint alike (s s' : string) : bool :=
  match s, s' with
  | String c r, String c' r' => same_or_dropped c c' && alike r r'
  | EmptyString, EmptyString => true
  | _, _ => false
  end.

Definition starts_clean (s : string) : bool :=
  match s with
  | String c _ => negb (is_space c)
  | EmptyString => true
  end.

(** What [read_words] promises of a word: not blank, not a comment, no
    white space around it. *)
Definition clean_word (w : string) : Prop :=
  w <> "" /\ startswith_hash w = false /\ strip w = w.

Section FurtherObservations.

Context {W : World}.

(** The words a run finds to process. *)
Definition usable_words : list string :=
  match words_lines env with
  | Some lines => List.filter keep_line (List.map strip lines)
  | None => []
  end.

(** [keeps f s s']: the component [f] of the generator is the same in
    both states. *)
Definition keeps {A} (f : pstate -> A) (s s' : pstate) : Prop := f s' = f s.

(** The cache metadata a new generator would load from the metadata
    file. *)
Definition metadata_on_disk (s : pstate) : gmap string string :=
  match metadata_disk s with
  | Some (Some m) => m
  | _ => ∅
  end.

(** [cache_saved s]: the metadata file is up to date, a restart loads
    what the generator holds. *)
Definition cache_saved (s : pstate) : Prop :=
  metadata_on_disk s = audio_cache_metadata s.

(** [restart s]: a new generator, created on the files [s] leaves. *)
Definition restart (s : pstate) : pstate :=
  init (checkpoint_disk s) (metadata_disk s) (files s).
(** The metadata file, once up to date, stays so. *)
Definition stays_saved (s s' : pstate) : Prop :=
  cache_saved s -> cache_saved s'.

(** Events of the audio stage: synthesis calls and the waits around
    them, the traffic with the cache, the state [GENERATING_AUDIO]. *)
Definition audio_event (e : event) : bool :=
  match e with
  | EvTts _ _ _ _ | EvSleepInt _ | EvSleepFloat _
  | EvCopyFromCache _ _ _ | EvCopyToCache _ _ | EvSaveMetadata
  | EvSetState GENERATING_AUDIO => true
  | _ => false
  end.

Definition no_audio_event (e : event) : bool := negb (audio_event e).

Definition no_reverse_note (e : event) : bool :=
  match e with
  | EvAddNote _ Reverse _ => false
  | _ => true
  end.

(** The four texts of a record, which the content stage writes. *)
Definition texts_of (c : FlashcardData) : string * string * string * string :=
  (word c, translation c, example_sentence_da c, example_sentence_en c).

(** [texts_grow s s']: every record of [s] is still there in [s'], with
    the same texts. *)
Definition texts_grow (s s' : pstate) : Prop :=
  (texts_of <$> heap s) `prefix_of` (texts_of <$> heap s').

(** The records with their error fields blanked. *)
Definition records_but_errors (s : pstate) : list FlashcardData :=
  set_error None <$> heap s.

(** What the publish stage has no business with: the checkpoint, the
    cache, the counters. *)
Definition stores (s : pstate) :=
  (checkpoint s, checkpoint_disk s, audio_cache_metadata s, metadata_disk s,
   stats s).


(** Events of publication proper: a file staged, a note submitted. *)
Definition no_publish_call (e : event) : bool :=
  match e with
  | EvCopyToAnki _ _ _ | EvAddNote _ _ _ => false
  | _ => true
  end.

(** [idle s s']: provided a cancellation had been seen at [s], it is
    still seen at [s'], and in between no record and no file changed,
    nothing was staged and no note submitted. *)
Definition idle (s s' : pstate) : Prop :=
  cancelled s = true ->
  cancelled s' = true /\ heap s' = heap s /\ files s' = files s /\
  emits no_publish_call s s'.

(** [publish_and_finish] after its first step, the announcement of
    [COPYING_AUDIO]. *)
Definition publish_after_announcement (flashcards : list nat) : M unit :=
  anki_media_dir <- get_anki_media_dir ;;
  staged <-
    (if negb (dir_exists env anki_media_dir) then
       _log (MsgMediaDirNotFound anki_media_dir) ;;;
       ret false
     else
       _log (MsgMediaDir anki_media_dir) ;;;
       for_each (copy_step anki_media_dir) flashcards ;;;
       ret true) ;;
  (if staged : bool then send_to_anki flashcards else ret tt) ;;;
  successful <- gets (count_successful flashcards) ;;
  _update_state COMPLETED
    (MsgCompleted successful (Z.of_nat (length flashcards))) ;;;
  disk <- gets checkpoint_disk ;;
  match disk with
  | Some _ =>
      emit EvRemoveCheckpoint ;;;
      modify (set_checkpoint_disk None)
  | None => ret tt
  end.

(** Traffic with the cache. *)
Definition no_cache_event (e : event) : bool :=
  match e with
  | EvCopyFromCache _ _ _ | EvCopyToCache _ _ | EvSaveMetadata => false
  | _ => true
  end.
(** The answer of the content backend to the call that [content_step],
    entered at [s], makes for [w]. *)
Definition content_answer (s : pstate) (w : string) : content_result :=
  gemini env (S (S (clock s))) w.

(** An error, once set, stays: every record that tests as failed at [s]
    still does at [s']. *)
Definition errors_stay (s s' : pstate) : Prop :=
  forall r, truthy (error (card r s)) = true ->
            truthy (error (card r s')) = true.

(** The audio phase of [run] (lines 580-595). *)
Definition audio_phase (flashcards : list nat) : M unit :=
  if test_mode config then ret tt
  else audio_loop (Z.of_nat (length flashcards)) 1 flashcards.

(** Events that belong to the run before publication. *)
Definition before_publication (e : event) : bool :=
  match e with
  | EvSetState COPYING_AUDIO | EvSetState SENDING_TO_ANKI
  | EvSetState COMPLETED | EvGetMediaDir | EvCopyToAnki _ _ _
  | EvAddNote _ _ _ | EvRemoveCheckpoint => false
  | _ => true
  end.

(** [delivered s s']: time passed from [s] to [s'], a cancellation seen
    at [s] is still seen at [s'], and a [cancel()] requested at an
    instant in between has set the flag at [s']. *)
Definition delivered (s s' : pstate) : Prop :=
  (clock s <= clock s')%nat /\
  (cancelled s = true -> cancelled s' = true) /\
  forall t, (clock s <= t < clock s')%nat -> cancel_req env t = true ->
            cancelled s' = true.

(** Events other than a call of the content backend for a word of
    [D]. *)
Definition asks_outside (D : gset string) (e : event) : bool :=
  match e with
  | EvGemini w => bool_decide (w ∉ D)
  | _ => true
  end.

(** [settled D s s']: provided the words of [D] are checkpointed at
    [s], they still are at [s'], and the content backend was not asked
    for any of them in between. *)
Definition settled (D : gset string) (s s' : pstate) : Prop :=
  D ⊆ dom (checkpoint s) ->
  D ⊆ dom (checkpoint s') /\ emits (asks_outside D) s s'.



End FurtherObservations.

(** ** A sample world

    [float] is read as the rationals, the digest as a tagging of the
    text; the configuration is the default one with reverse cards and a
    callback; every backend answers. *)

Definition sample_config : GeneratorConfig Q :=
  mkConfig "./words.txt" "Danish vocab" "Danish" "Danish Reverse"
    "./audio" "./audio_cache" "./checkpoint.json" (13 # 2)
    false false true true.

Definition sample_mul (n : Z) (x : Q) : Q := Qred (inject_Z n * x).

Definition sample_digest (text : string) : string := "md5-" ++ text.

Definition sample_tts_ok (t : nat) (text filename : string) : tts_result :=
  TtsOk (path_join "./audio" (filename ++ ".wav")).

Definition sample_env : Env :=
  mkEnv (fun _ => false) (Some ["hund"; "kat"; "fugl"])
    (fun _ w => ContentOk ("en " ++ w) "animal" ("Her er en <b>" ++ w ++ "</b>.")
                          ("Here is an <b>animal</b>."))
    sample_tts_ok (fun _ => inl "/anki/collection.media") "Linux" "/home/user"
    (fun _ => true) (fun _ _ => None) 0.

Definition sample_world : World :=
  mkWorld Q sample_mul sample_digest sample_config sample_env.

Definition hund : FlashcardData :=
  mkCard "en hund" "a dog" "Jeg har en <b>hund</b>." "I have a <b>dog</b>."
    None None None.

(** A generator holding the one record [hund], nothing cached. *)
Definition one_card_state `{W : World} (c : FlashcardData) : pstate :=
  set_heap [c] (blank None None ∅).

(** The same, with cache metadata naming an artifact that is not on
    disk. *)
Definition stale_cache_state : pstate (W := sample_world) :=
  set_audio_cache_metadata {[ sample_digest "en hund" := "gone.wav" ]}
    (one_card_state hund).

(** A generator that loaded a checkpoint holding [hund] under "hund". *)
Definition resumed_state : pstate (W := sample_world) :=
  set_checkpoint {[ "hund" := 0%nat ]} (one_card_state hund).

(** A world whose Anki bridge refuses every note. *)
Definition refusing_env : Env :=
  mkEnv (fun _ => false) (Some ["hund"; "kat"; "fugl"])
    (gemini sample_env) sample_tts_ok (fun _ => inl "/anki/collection.media")
    "Linux" "/home/user" (fun _ => true)
    (fun _ _ => Some "cannot create note because it is a duplicate") 0.

Definition refusing_world : World :=
  mkWorld Q sample_mul sample_digest sample_config refusing_env.

(** A world whose speech backend is rate limited at instant 1 and
    answers afterwards. *)
Definition rate_limited_env : Env :=
  mkEnv (fun _ => false) (Some ["hund"; "kat"; "fugl"])
    (gemini sample_env)
    (fun t text filename =>
       if Nat.eqb t 1 then TtsClientError 429 "RESOURCE_EXHAUSTED"
       else sample_tts_ok t text filename)
    (fun _ => inl "/anki/collection.media")
    "Linux" "/home/user" (fun _ => true) (fun _ _ => None) 0.

Definition rate_limited_world : World :=
  mkWorld Q sample_mul sample_digest sample_config rate_limited_env.

(** A generator whose one record has the empty string as error, and a
    checkpoint file holding such a record. *)
Definition blank_error_state : pstate (W := sample_world) :=
  one_card_state (set_error (Some "") hund).

Definition blank_error_checkpoint : gmap string FlashcardData :=
  {[ "hund" := set_error (Some "") hund ]}.

(** A generator whose one record failed in the content stage. *)
Definition failed_card_state : pstate (W := sample_world) :=
  one_card_state (error_card "hund" "Failed to parse JSON for hund").

(** A world in which Anki's media directory is not found. *)
Definition no_media_env : Env :=
  mkEnv (fun _ => false) (Some ["hund"; "kat"; "fugl"])
    (gemini sample_env) sample_tts_ok (fun _ => inr "connection refused")
    "Linux" "/home/user" (fun _ => false) (fun _ _ => None) 0.

Definition no_media_world : World :=
  mkWorld Q sample_mul sample_digest sample_config no_media_env.

Definition is_add_note `{W : World} (e : event) : bool :=
  match e with EvAddNote _ _ _ => true | _ => false end.

(** A world in which [cancel()] is called at instant 8, which is when
    the first word has been through content generation. *)
Definition cancelling_env : Env :=
  mkEnv (fun t => Nat.eqb t 8) (Some ["hund"; "kat"; "fugl"])
    (gemini sample_env) sample_tts_ok (fun _ => inl "/anki/collection.media")
    "Linux" "/home/user" (fun _ => true) (fun _ _ => None) 0.

Definition cancelling_world : World :=
  mkWorld Q sample_mul sample_digest sample_config cancelling_env.



(** Two Danish entries, "en o-slash, o-slasher" and "en a-ring, a-ringer", that differ
    in one letter outside the ASCII range. *)
Definition island : string :=
  "en " ++ String (ascii_of_N 248) (", " ++ String (ascii_of_N 248) "er").

Definition stream : string :=
  "en " ++ String (ascii_of_N 229) (", " ++ String (ascii_of_N 229) "er").



(** The sample world in test mode, and with forward cards only. *)
Definition test_mode_config : GeneratorConfig Q :=
  mkConfig "./words.txt" "Danish vocab" "Danish" "Danish Reverse"
    "./audio" "./audio_cache" "./checkpoint.json" (13 # 2)
    false true true true.

Definition test_mode_world : World :=
  mkWorld Q sample_mul sample_digest test_mode_config sample_env.

Definition forward_only_config : GeneratorConfig Q :=
  mkConfig "./words.txt" "Danish vocab" "Danish" "Danish Reverse"
    "./audio" "./audio_cache" "./checkpoint.json" (13 # 2)
    false false false true.

Definition forward_only_world : World :=
  mkWorld Q sample_mul sample_digest forward_only_config sample_env.

(** A world in which [cancel()] is called at instant 0. *)
Definition cancel_at_once_env : Env :=
  mkEnv (fun t => Nat.eqb t 0) (Some ["hund"; "kat"; "fugl"])
    (gemini sample_env) sample_tts_ok (fun _ => inl "/anki/collection.media")
    "Linux" "/home/user" (fun _ => true) (fun _ _ => None) 0.

Definition cancel_at_once_world : World :=
  mkWorld Q sample_mul sample_digest sample_config cancel_at_once_env.

(** A world in which [cancel()] is called at instant 67, which is when
    the run over the three sample words enters publication. *)
Definition late_cancel_env : Env :=
  mkEnv (fun t => Nat.eqb t 67) (Some ["hund"; "kat"; "fugl"])
    (gemini sample_env) sample_tts_ok (fun _ => inl "/anki/collection.media")
    "Linux" "/home/user" (fun _ => true) (fun _ _ => None) 0.

Definition late_cancel_world : World :=
  mkWorld Q sample_mul sample_digest sample_config late_cancel_env.

(** A world in which [cancel()] is called at instant 40, in the middle
    of the audio phase of the run over the three sample words. *)
Definition audio_cancel_env : Env :=
  mkEnv (fun t => Nat.eqb t 40) (Some ["hund"; "kat"; "fugl"])
    (gemini sample_env) sample_tts_ok (fun _ => inl "/anki/collection.media")
    "Linux" "/home/user" (fun _ => true) (fun _ _ => None) 0.

Definition audio_cancel_world : World :=
  mkWorld Q sample_mul sample_digest sample_config audio_cancel_env.



Create HintDb pipeline discriminated.

#[export] Hint Unfold poll_cancelled _update_state _log emit sleep_int sleep_float
  get_card update_card copy2 save_audio_cache_metadata get_cached_audio
  cache_audio save_checkpoint load_checkpoint read_words
  generate_content_for_word tts_generate fail_card generate_word_audio
  generate_sentence_audio generate_audio_for_flashcard get_anki_media_dir
  copy_one_file copy_step copy_audio_to_anki akc_add_note send_step
  send_to_anki add_failed content_step audio_step publish_and_finish
  after_content run_failed run load_audio_cache_metadata : pipeline.

#[global] Arguments wp : simpl never.
#[global] Arguments bind : simpl never.
#[global] Arguments ret : simpl never.
#[global] Arguments gets : simpl never.
#[global] Arguments modify : simpl never.
#[global] Arguments tick : simpl never.
#[global] Arguments new_card : simpl never.
#[global] Arguments poll_cancelled : simpl never.
#[global] Arguments _update_state : simpl never.
#[global] Arguments _log : simpl never.
#[global] Arguments emit : simpl never.
#[global] Arguments sleep_int : simpl never.
#[global] Arguments sleep_float : simpl never.
#[global] Arguments get_card : simpl never.
#[global] Arguments update_card : simpl never.
#[global] Arguments copy2 : simpl never.
#[global] Arguments save_audio_cache_metadata : simpl never.
#[global] Arguments get_cached_audio : simpl never.
#[global] Arguments cache_audio : simpl never.
#[global] Arguments save_checkpoint : simpl never.
#[global] Arguments generate_content_for_word : simpl never.
#[global] Arguments tts_generate : simpl never.
#[global] Arguments fail_card : simpl never.
#[global] Arguments generate_word_audio : simpl never.
#[global] Arguments generate_sentence_audio : simpl never.
#[global] Arguments generate_audio_for_flashcard : simpl never.
#[global] Arguments get_anki_media_dir : simpl never.
#[global] Arguments copy_one_file : simpl never.
#[global] Arguments copy_step : simpl never.
#[global] Arguments copy_audio_to_anki : simpl never.
#[global] Arguments akc_add_note : simpl never.
#[global] Arguments send_step : simpl never.
#[global] Arguments send_to_anki : simpl never.
#[global] Arguments add_failed : simpl never.
#[global] Arguments content_step : simpl never.
#[global] Arguments audio_step : simpl never.
#[global] Arguments publish_and_finish : simpl never.
#[global] Arguments after_content : simpl never.
#[global] Arguments read_words : simpl never.
#[global] Arguments run_failed : simpl never.
#[global] Arguments run : simpl never.
#[global] Arguments card : simpl never.
#[global] Arguments new_events : simpl never.
#[global] Arguments calls : simpl never.
#[global] Arguments transitions : simpl never.
#[global] Arguments tts_calls : simpl never.
#[global] Arguments synthesis_calls : simpl never.
#[global] Arguments cancel_events : simpl never.
#[global] Arguments callback_events : simpl never.
#[global] Arguments exists_file : simpl never.
#[global] Arguments fallback_media_dir : simpl never.
#[global] Arguments forward_note : simpl never.
#[global] Arguments reverse_note : simpl never.
#[global] Arguments checkpoint_snapshot : simpl never.

(** * Reasoning principles *)

Section Reasoning.

Context {W : World}.

Lemma wp_bind {A B} (m : M A) (k : A -> M B) Q s :
  wp m (fun a s' => wp (k a) Q s') s -> wp (bind m k) Q s.
Proof. unfold wp, bind. by destruct (m s). Qed.

Lemma wp_ret {A} (a : A) (Q : A -> pstate -> Prop) s : Q a s -> wp (ret a) Q s.
Proof. done. Qed.

Lemma wp_gets {A} (f : pstate -> A) (Q : A -> pstate -> Prop) s :
  Q (f s) s -> wp (gets f) Q s.
Proof. done. Qed.

Lemma wp_modify f (Q : unit -> pstate -> Prop) s :
  Q tt (f s) -> wp (modify f) Q s.
Proof. done. Qed.

Lemma wp_mono {A} (m : M A) (Q Q' : A -> pstate -> Prop) s :
  wp m Q s -> (forall a s', Q a s' -> Q' a s') -> wp m Q' s.
Proof. unfold wp. auto. Qed.

Lemma wp_eq {A} (m : M A) (Q : A -> pstate -> Prop) s a s' :
  m s = (a, s') -> Q a s' -> wp m Q s.
Proof. unfold wp. by intros ->. Qed.

Lemma tick_eq s : tick s = (clock s, tick_state s).
Proof.
  unfold tick, tick_state, cancel, callback, record_event, cancel_events.
  destruct (cancel_req env (clock s)); destruct s; cbn.
  - by rewrite <- app_assoc.
  - by rewrite app_nil_r.
Qed.

Lemma wp_new_card c (Q : nat -> pstate -> Prop) s :
  Q (length (heap s)) (set_heap (heap s ++ [c]) s) -> wp (new_card c) Q s.
Proof. done. Qed.

Lemma wp_tick (Q : nat -> pstate -> Prop) s :
  Q (clock s) (tick_state s) -> wp tick Q s.
Proof. unfold wp. by rewrite tick_eq. Qed.

Section Preserved.

Variable R : pstate -> pstate -> Prop.
Hypothesis R_refl : forall s, R s s.
Hypothesis R_trans : forall s1 s2 s3, R s1 s2 -> R s2 s3 -> R s1 s3.

Lemma Pres_ret {A} (a : A) : Pres R (ret a).
Proof. intros s. apply R_refl. Qed.

Lemma Pres_gets {A} (f : pstate -> A) : Pres R (gets f).
Proof. intros s. apply R_refl. Qed.

Lemma Pres_bind {A B} (m : M A) (k : A -> M B) :
  Pres R m -> (forall a, Pres R (k a)) -> Pres R (bind m k).
Proof.
  intros Hm Hk s. unfold bind. specialize (Hm s).
  destruct (m s) as [a s1]. eapply R_trans; [exact Hm|apply Hk].
Qed.

Lemma Pres_modify f : (forall s, R s (f s)) -> Pres R (modify f).
Proof. intros H s. apply H. Qed.

Lemma Pres_tick : (forall s, R s (tick_state s)) -> Pres R tick.
Proof. intros H s. rewrite tick_eq. apply H. Qed.

Lemma Pres_for_each {A} (body : A -> M unit) l :
  (forall x, Pres R (body x)) -> Pres R (for_each body l).
Proof.
  intros H. induction l as [|x l IH]; cbn [for_each].
  - apply Pres_ret.
  - apply Pres_bind; auto.
Qed.

Lemma Pres_wp {A} (m : M A) s :
  Pres R m -> wp m (fun _ s' => R s s') s.
Proof. intros H. apply H. Qed.

End Preserved.

Lemma emits_refl p s : emits p s s.
Proof. exists []. by rewrite app_nil_r. Qed.

Lemma emits_trans p s1 s2 s3 : emits p s1 s2 -> emits p s2 s3 -> emits p s1 s3.
Proof.
  intros (e1 & H1 & F1) (e2 & H2 & F2). exists (e1 ++ e2)%list. split.
  - by rewrite H2, H1, app_assoc.
  - rewrite forallb_app. by rewrite F1, F2.
Qed.

Lemma emits_new_events p s s' :
  emits p s s' -> trace s' = (trace s ++ new_events s s')%list /\
                  forallb p (new_events s s') = true.
Proof.
  intros (evs & H & HF). unfold new_events. rewrite H.
  by rewrite drop_app_length.
Qed.

Lemma forallb_callback_events (p : event -> bool) st msg :
  p (EvCallback st msg) = true -> forallb p (callback_events st msg) = true.
Proof.
  intros H. unfold callback_events.
  destruct (has_callback config); cbn; [by rewrite H|done].
Qed.

Lemma forallb_cancel_events (p : event -> bool) :
  p (EvSetState CANCELLED) = true ->
  p (EvCallback CANCELLED MsgCancelling) = true ->
  forallb p cancel_events = true.
Proof.
  intros H1 H2. unfold cancel_events. cbn.
  by rewrite H1, forallb_callback_events.
Qed.

Lemma forallb_cancel_piece (p : event -> bool) (c : bool) :
  p (EvSetState CANCELLED) = true ->
  p (EvCallback CANCELLED MsgCancelling) = true ->
  forallb p (if c then cancel_events else []) = true.
Proof. intros H1 H2. destruct c; [|done]. by apply forallb_cancel_events. Qed.

Lemma new_card_emits p c : Pres (emits p) (new_card c).
Proof. intros s. exists []. cbn. by rewrite app_nil_r. Qed.

End Reasoning.

(** Structural descent through a method: [known] applies what is
    already proved of loops and allocations, [leaf] closes what the
    preserved relation asks of a state update. *)
Ltac pres_with HR HT known leaf :=
  repeat first
    [ known
    | lazymatch goal with
      | |- Pres _ (bind _ _) => apply (Pres_bind _ HT); [|intros; cbv beta]
      | |- Pres _ (ret _) => apply (Pres_ret _ HR)
      | |- Pres _ (gets _) => apply (Pres_gets _ HR)
      | |- Pres _ (for_each _ _) =>
          apply (Pres_for_each _ HR HT); intros; cbv beta
      | |- Pres _ tick => apply Pres_tick; intros; leaf
      | |- Pres _ (modify _) => apply Pres_modify; intros; leaf
      | |- Pres _ (if ?b then _ else _) => destruct b
      | |- Pres _ (match ?x with _ => _ end) => destruct x
      | |- Pres _ (let _ := _ in _) => cbv zeta
      end
    | progress autounfold with pipeline ].

Ltac emits_forallb side :=
  repeat first
    [ rewrite forallb_app
    | rewrite forallb_cancel_piece by (side || reflexivity)
    | rewrite forallb_cancel_events by (side || reflexivity)
    | rewrite forallb_callback_events by (side || reflexivity)
    | progress cbn
    | match goal with |- context [if ?b then _ else _] => destruct b end
    | side ];
  try reflexivity.

(** The two cases of [copy_file]. *)
Ltac copy_cases :=
  try (unfold copy_file;
       match goal with
       | |- context [match files ?s !! ?a with _ => _ end] =>
           destruct (files s !! a)
       end).

Ltac emits_leaf side :=
  copy_cases;
  first
    [ exists []; split; [cbn; by rewrite app_nil_r|reflexivity]
    | eexists; split;
      [ unfold callback, record_event; cbn; rewrite <- ?app_assoc; reflexivity
      | emits_forallb side ] ].

(** [emits p] through a method whose events all satisfy [p] by
    computation. *)
Ltac emits_with p known :=
  pres_with (emits_refl p) (emits_trans p)
    ltac:(first [apply new_card_emits | known]) ltac:(emits_leaf fail).

Ltac head_of t := lazymatch t with ?f _ => head_of f | _ => t end.

(** The methods that symbolic execution opens by itself. *)
Ltac is_small h :=
  first
    [ constr_eq h (@poll_cancelled) | constr_eq h (@_update_state)
    | constr_eq h (@_log) | constr_eq h (@emit) | constr_eq h (@sleep_int)
    | constr_eq h (@sleep_float) | constr_eq h (@get_card)
    | constr_eq h (@update_card) | constr_eq h (@copy2)
    | constr_eq h (@save_audio_cache_metadata)
    | constr_eq h (@save_checkpoint) | constr_eq h (@add_failed)
    | constr_eq h (@fail_card) | constr_eq h (@akc_add_note) ].

(** One step of symbolic execution. *)
Ltac wp_step :=
  lazymatch goal with
  | |- wp (bind _ _) _ _ => apply wp_bind
  | |- wp (ret _) _ _ => apply wp_ret
  | |- wp (gets _) _ _ => apply wp_gets
  | |- wp (modify _) _ _ => apply wp_modify
  | |- wp tick _ _ => apply wp_tick
  | |- wp (new_card _) _ _ => apply wp_new_card
  | |- wp (let _ := _ in _) _ _ => cbv zeta
  | |- wp (if _ then _ else _) _ _ => fail
  | |- wp (match _ with _ => _ end) _ _ => fail
  | |- wp ?m _ _ => let h := head_of m in is_small h; unfold h
  end.

(** Accessors of an updated state. *)
Ltac st_simpl :=
  unfold callback, record_event, tick_state, copy_file, set_heap,
    set_checkpoint,
    set_checkpoint_disk, set_audio_cache_metadata, set_metadata_disk,
    set_files, set_stats, set_state, set_cancelled, set_clock, set_trace;
  cbn.

Ltac wp_go := repeat (wp_step; st_simpl).

Local Arguments String.append : simpl never.
Local Arguments path_join : simpl never.
Local Arguments normalize_filename : simpl never.

(** * Cache store *)

Section CacheStore.

Context {W : World}.

Lemma new_events_app s s' l :
  trace s' = (trace s ++ l)%list -> new_events s s' = l.
Proof. intros H. unfold new_events. by rewrite H, drop_app_length. Qed.

Lemma emits_any p s s' : emits p s s' -> emits any_event s s'.
Proof. intros (l & H & _). exists l. split; [done|]. by apply forallb_forall. Qed.

Lemma emits_in p e s0 s1 s2 :
  emits any_event s0 s1 -> In e (new_events s0 s1) -> emits p s1 s2 ->
  In e (new_events s0 s2).
Proof.
  intros (l1 & H1 & _) Hin (l2 & H2 & _).
  rewrite (new_events_app _ _ _ H1) in Hin.
  rewrite (new_events_app s0 s2 (l1 ++ l2)).
  - apply in_or_app. by left.
  - by rewrite H2, H1, app_assoc.
Qed.

Lemma wp_pres {A} R (m : M A) (Q : A -> pstate -> Prop) s :
  Pres R m -> (forall a s', R s s' -> Q a s') -> wp m Q s.
Proof. intros H HQ. apply HQ, H. Qed.

Lemma get_cached_audio_stale s text cached_file :
  audio_cache_metadata s !! get_audio_cache_key text = Some cached_file ->
  files s !! path_join (audio_cache_dir config) cached_file = None ->
  get_cached_audio text s = (None, s).
Proof.
  intros Hm Hf. unfold get_cached_audio, gets. rewrite Hm.
  unfold exists_file. rewrite Hf.
  rewrite bool_decide_eq_false_2; [done|]. by intros [? ?].
Qed.

(** A cache miss is followed by a call of the speech backend. *)
Lemma word_audio_miss_calls_backend s text r wf :
  (get_cached_audio text s).1 = None ->
  In (EvTts r WordAudio text wf)
     (new_events s (generate_word_audio r text wf s).2).
Proof.
  intros Hg.
  change (wp (generate_word_audio r text wf)
            (fun _ s' => In (EvTts r WordAudio text wf) (new_events s s')) s).
  unfold generate_word_audio. cbv zeta.
  apply wp_bind. unfold wp at 1.
  replace (get_cached_audio text s) with (@None string, s)
    by (rewrite <- Hg; reflexivity).
  cbn [truthy fst snd].
  apply wp_bind.
  apply (wp_pres (emits any_event)); [emits_with any_event fail|intros _ s1 H1].
  apply wp_bind. unfold tts_generate. apply wp_bind.
  wp_go.
  match goal with |- wp _ _ ?s2 =>
    assert (H2 : emits any_event s1 s2) by (emits_leaf fail) end.
  apply (wp_pres (emits any_event)); [emits_with any_event fail|intros a s3 H3].
  apply (wp_pres (emits any_event)); [emits_with any_event fail|intros b s4 H4].
  pose proof (emits_trans _ _ _ _ H1 H2) as H12.
  eapply emits_in; [exact H12| |eapply emits_trans; eassumption].
  destruct H1 as (l1 & E1 & _).
  erewrite new_events_app.
  2:{ unfold record_event, tick_state. cbn. rewrite E1, <- !app_assoc.
      reflexivity. }
  rewrite !in_app_iff. right. right. by left.
Qed.

Lemma generate_audio_enters s r fc :
  heap s !! r = Some fc -> truthy (error fc) = false ->
  cancelled s = false -> cancel_req env (clock s) = false ->
  generate_audio_for_flashcard r s =
  (ok <- generate_word_audio r (word fc) (normalize_filename (word fc)) ;;
   if negb ok then ret false else
   c <- poll_cancelled ;;
   if c : bool then ret false else
   fc' <- get_card r ;;
   generate_sentence_audio r (word fc') (example_sentence_da fc')
     (normalize_filename (word fc) ++ "_sentence")) (tick_state s).
Proof.
  intros Hr He Hc Hq.
  unfold generate_audio_for_flashcard, poll_cancelled.
  unfold bind at 1. unfold bind at 1. rewrite tick_eq.
  unfold gets at 1. cbn [fst snd].
  assert (Hc' : cancelled (tick_state s) = false).
  { unfold tick_state. cbn. by rewrite Hq, Hc. }
  rewrite Hc'. unfold bind at 1. unfold get_card at 1, gets at 1.
  assert (Hcard : card r (tick_state s) = fc).
  { unfold card, tick_state. cbn. by rewrite Hr. }
  rewrite Hcard, He. reflexivity.
Qed.

(** C7. A cache metadata entry whose artifact is no longer on disk makes
    the lookup a miss, not an error: [get_cached_audio] returns [None]
    and changes nothing, and the next request for that text, made for a
    record [r] without error while no cancellation is pending, calls
    the speech backend for the word. *)
Theorem stale_cache_entry_is_a_miss s text cached_file :
  audio_cache_metadata s !! get_audio_cache_key text = Some cached_file ->
  files s !! path_join (audio_cache_dir config) cached_file = None ->
  get_cached_audio text s = (None, s) /\
  forall r fc,
    heap s !! r = Some fc -> word fc = text -> truthy (error fc) = false ->
    cancelled s = false -> cancel_req env (clock s) = false ->
    In (EvTts r WordAudio text (normalize_filename text))
       (new_events s (generate_audio_for_flashcard r s).2).
Proof.
  intros Hm Hf.
  pose proof (get_cached_audio_stale _ _ _ Hm Hf) as Hg.
  split; [done|]. intros r fc Hr <- He Hc Hq.
  rewrite (generate_audio_enters s r fc) by done.
  assert (Ht : emits any_event s (tick_state s)) by (emits_leaf fail).
  assert (Hg' : (get_cached_audio (word fc) (tick_state s)).1 = None).
  { rewrite (get_cached_audio_stale _ _ cached_file); done. }
  pose proof (word_audio_miss_calls_backend (tick_state s) (word fc) r
                (normalize_filename (word fc)) Hg') as Hin.
  set (k := fun ok : bool => _).
  unfold bind.
  destruct (generate_word_audio r (word fc) (normalize_filename (word fc))
              (tick_state s)) as [ok s1] eqn:E1.
  cbn [snd] in Hin.
  assert (H1 : emits any_event (tick_state s) s1).
  { replace s1 with (generate_word_audio r (word fc)
       (normalize_filename (word fc)) (tick_state s)).2 by (by rewrite E1).
    generalize (tick_state s). change (Pres (emits any_event)
      (generate_word_audio r (word fc) (normalize_filename (word fc)))).
    emits_with any_event fail. }
  assert (H2 : emits any_event s1 (k ok s1).2).
  { generalize s1. change (Pres (emits any_event) (k ok)). subst k. cbv beta.
    emits_with any_event fail. }
  assert (Hin1 : In (EvTts r WordAudio (word fc) (normalize_filename (word fc)))
                    (new_events s s1)).
  { destruct Ht as (l0 & E0 & _). destruct H1 as (l1 & E1' & _).
    rewrite (new_events_app _ _ _ E1') in Hin.
    rewrite (new_events_app s s1 (l0 ++ l1)).
    - apply in_or_app. by right.
    - by rewrite E1', E0, app_assoc. }
  eapply emits_in; [|exact Hin1|exact H2].
  eapply emits_trans; eassumption.
Qed.

End CacheStore.

Lemma stale_cache_entry_is_a_miss_witness :
  get_cached_audio "en hund" stale_cache_state = (None, stale_cache_state).
Proof.
  apply (stale_cache_entry_is_a_miss (W := sample_world) stale_cache_state
           "en hund" "gone.wav"); reflexivity.
Defined.

(** * Content stage and statistics *)

Ltac skipped_leaf := unfold keeps_skipped; copy_cases; reflexivity.

Section ContentStage.

Context {W : World}.

Lemma keeps_skipped_refl s : keeps_skipped s s.
Proof. done. Qed.

Lemma keeps_skipped_trans s1 s2 s3 :
  keeps_skipped s1 s2 -> keeps_skipped s2 s3 -> keeps_skipped s1 s3.
Proof. unfold keeps_skipped. congruence. Qed.

Lemma new_card_keeps_skipped c : Pres keeps_skipped (new_card c).
Proof. done. Qed.

Ltac skipped known :=
  pres_with keeps_skipped_refl keeps_skipped_trans
    ltac:(first [apply new_card_keeps_skipped | known]) skipped_leaf.

Lemma content_loop_keeps_skipped n i ws fl :
  Pres keeps_skipped (content_loop n i ws fl).
Proof.
  revert i fl. induction ws as [|w ws IH]; intros i fl; cbn [content_loop].
  - skipped fail.
  - skipped ltac:(apply IH).
Qed.

Lemma audio_loop_keeps_skipped n i l : Pres keeps_skipped (audio_loop n i l).
Proof.
  revert i. induction l as [|r l IH]; intros i; cbn [audio_loop].
  - skipped fail.
  - skipped ltac:(apply IH).
Qed.

Lemma run_keeps_skipped : Pres keeps_skipped run.
Proof.
  skipped ltac:(first [apply content_loop_keeps_skipped
                      |apply audio_loop_keeps_skipped]).
Qed.

Lemma init_skipped ckpt meta fs : skipped_words (stats (init ckpt meta fs)) = 0.
Proof.
  unfold init.
  match goal with |- context [snd (?m ?s)] =>
    assert (H : Pres keeps_skipped m) by (skipped fail); apply (H s) end.
Qed.

(** C10. [skipped_words] is 0 in a new [ProcessingStats] and in a new
    generator, and no operation of the generator changes it: not
    [cancel], not the content stage (whether it skips a checkpointed
    word or not), not the audio or publish stage, not [run]; so it is 0
    after every run of a new generator. *)
Theorem skipped_words_stays_zero :
  skipped_words (ProcessingStats_default (F := float)) = 0 /\
  (forall ckpt meta fs, skipped_words (stats (init ckpt meta fs)) = 0) /\
  (forall s, skipped_words (stats (cancel s)) = skipped_words (stats s)) /\
  (forall w, Pres keeps_skipped (generate_content_for_word w)) /\
  (forall r, Pres keeps_skipped (generate_audio_for_flashcard r)) /\
  (forall l, Pres keeps_skipped (copy_audio_to_anki l)) /\
  (forall l, Pres keeps_skipped (send_to_anki l)) /\
  Pres keeps_skipped run /\
  (forall ckpt meta fs,
     skipped_words (stats (run (init ckpt meta fs)).2) = 0).
Proof.
  split; [done|]. split; [apply init_skipped|]. split; [done|].
  split; [intros; skipped fail|]. split; [intros; skipped fail|].
  split; [intros; skipped fail|]. split; [intros; skipped fail|].
  split; [apply run_keeps_skipped|].
  intros. rewrite (run_keeps_skipped _). apply init_skipped.
Qed.

Lemma generate_content_checkpointed s w r :
  checkpoint s !! w = Some r ->
  generate_content_for_word w s =
  (Some r, callback (state (tick_state s)) (MsgSkipping w) (tick_state s)).
Proof.
  intros H. unfold generate_content_for_word.
  unfold bind at 1, gets at 1. rewrite H.
  unfold _log. unfold bind, modify, ret. by rewrite tick_eq.
Qed.

Lemma calls_app l1 l2 : calls (l1 ++ l2) = (calls l1 ++ calls l2)%list.
Proof. apply List.filter_app. Qed.

Lemma calls_callback_events st msg : calls (callback_events st msg) = [].
Proof. unfold callback_events. by destruct (has_callback config). Qed.

Lemma calls_cancel_events : calls cancel_events = [].
Proof. unfold cancel_events, calls. cbn. apply calls_callback_events. Qed.

Lemma calls_cancel_piece (c : bool) :
  calls (if c then cancel_events else []) = [].
Proof. destruct c; [apply calls_cancel_events|done]. Qed.

Lemma calls_cons e l :
  calls (e :: l) = if is_call e then e :: calls l else calls l.
Proof. done. Qed.

Lemma calls_nil : calls [] = [].
Proof. done. Qed.

End ContentStage.

(** The outside calls among the events of an executed method. *)
Ltac calls_norm :=
  erewrite new_events_app by (cbn; rewrite <- ?app_assoc; reflexivity);
  repeat first
    [ rewrite calls_app | rewrite calls_cancel_piece
    | rewrite calls_cancel_events | rewrite calls_callback_events
    | rewrite calls_cons | rewrite calls_nil ];
  cbn [is_call app].

Section Resume.

Context {W : World}.

(** C3. For a word [w] found in the checkpoint, the content stage
    returns the checkpointed record, leaves the object store, the
    checkpoint (in memory and on disk) and the failure count as they
    were and calls no backend.  The orchestrator's step around it, for
    a checkpointed record that carries no error, appends the record,
    keeps [checkpoint[w]] and the failure count, and its only outside
    call is the rewriting of the checkpoint file. *)
Theorem checkpointed_word_is_skipped s w r :
  checkpoint s !! w = Some r ->
  (let s' := (generate_content_for_word w s).2 in
   (generate_content_for_word w s).1 = Some r /\
   heap s' = heap s /\ checkpoint s' = checkpoint s /\
   checkpoint_disk s' = checkpoint_disk s /\
   failed_words (stats s') = failed_words (stats s) /\
   calls (new_events s s') = []) /\
  (forall n i fl,
     truthy (error (card r s)) = false ->
     let s' := (content_step n i w fl s).2 in
     (content_step n i w fl s).1 = (fl ++ [r])%list /\
     heap s' = heap s /\ checkpoint s' = checkpoint s /\
     failed_words (stats s') = failed_words (stats s) /\
     calls (new_events s s') = [EvSaveCheckpoint]).
Proof.
  intros H. split.
  - rewrite (generate_content_checkpointed s w r H).
    st_simpl. repeat split.
    calls_norm. reflexivity.
  - intros n i fl He.
    change (wp (content_step n i w fl) (fun a s' =>
      a = (fl ++ [r])%list /\ heap s' = heap s /\
      checkpoint s' = checkpoint s /\
      failed_words (stats s') = failed_words (stats s) /\
      calls (new_events s s') = [EvSaveCheckpoint]) s).
    unfold content_step. wp_go.
    eapply wp_eq; [apply (generate_content_checkpointed _ w r); cbn; done|].
    st_simpl. wp_go. unfold card at 1. cbn. fold (card r s). rewrite He. cbn.
    wp_go. repeat split.
    + by apply insert_id.
    + calls_norm. reflexivity.
Qed.

End Resume.

Lemma checkpointed_word_is_skipped_witness :
  (generate_content_for_word "hund" resumed_state).1 = Some 0%nat.
Proof.
  apply (checkpointed_word_is_skipped (W := sample_world) resumed_state
           "hund" 0%nat). reflexivity.
Defined.

(** * Audio phase: the time estimate *)

Section Estimate.

Context {W : World}.



End Estimate.

(** * Publish stage: notes *)

Ltac card_norm Hr :=
  unfold card; cbn; rewrite ?list_lookup_alter_eq, ?Hr; cbn.

Section Notes.

Context {W : World}.

Lemma in_callback_events st msg :
  has_callback config = true -> In (EvCallback st msg) (callback_events st msg).
Proof. intros H. unfold callback_events. rewrite H. by left. Qed.

(** C8. Publication of a record without error, reverse cards enabled,
    no cancellation seen at its turn.  If the forward note is refused
    with message [e], the record's error becomes [e] and the forward
    note is the only note submitted for it.  If the forward note is
    accepted and the reverse note refused, both notes were submitted,
    the record is unchanged (its error stays as it was) and the refusal
    is handed to the callback. *)
Theorem forward_failure_skips_reverse s r fc :
  heap s !! r = Some fc -> truthy (error fc) = false ->
  cancelled s = false -> cancel_req env (clock s) = false ->
  generate_reverse_cards config = true ->
  let s' := (send_step r s).2 in
  (forall e,
     add_note env (S (clock s)) (forward_note fc) = Some e ->
     error (card r s') = Some e /\
     calls (new_events s s') = [EvAddNote r Forward (forward_note fc)]) /\
  (forall e,
     add_note env (S (clock s)) (forward_note fc) = None ->
     add_note env (S (S (S (clock s)))) (reverse_note fc) = Some e ->
     card r s' = fc /\
     calls (new_events s s') =
       [EvAddNote r Forward (forward_note fc);
        EvAddNote r Reverse (reverse_note fc)] /\
     (has_callback config = true ->
      exists st, In (EvCallback st (MsgFailedReverse (word fc) e))
                    (new_events s s'))).
Proof.
  intros Hr He Hc Hq Hrev s'. subst s'.
  assert (Hcard : card r s = fc) by (unfold card; by rewrite Hr).
  split.
  - intros e Hf.
    change (wp (send_step r) (fun _ s' =>
      error (card r s') = Some e /\
      calls (new_events s s') = [EvAddNote r Forward (forward_note fc)]) s).
    unfold send_step. wp_go. rewrite Hcard, He. wp_go. rewrite Hq, Hc. cbn.
    wp_go. rewrite Hf. wp_go. split.
    + by card_norm Hr.
    + calls_norm. reflexivity.
  - intros e Hf Hrv.
    change (wp (send_step r) (fun _ s' =>
      card r s' = fc /\
      calls (new_events s s') =
        [EvAddNote r Forward (forward_note fc);
         EvAddNote r Reverse (reverse_note fc)] /\
      (has_callback config = true ->
       exists st, In (EvCallback st (MsgFailedReverse (word fc) e))
                     (new_events s s'))) s).
    unfold send_step. wp_go. rewrite Hcard, He. wp_go. rewrite Hq, Hc. cbn.
    wp_go. rewrite Hf. wp_go. rewrite Hrev. wp_go.
    unfold card. cbn. rewrite !Hr. cbn. rewrite Hrv. wp_go.
    split; [by rewrite Hr|]. split.
    + calls_norm. reflexivity.
    + intros Hcb. eexists.
      erewrite new_events_app by (cbn; rewrite <- ?app_assoc; reflexivity).
      rewrite !in_app_iff.
      repeat match goal with |- _ \/ _ => right end.
      by apply in_callback_events.
Qed.

End Notes.

Lemma forward_failure_skips_reverse_witness :
  error (card 0 (send_step (W := refusing_world) 0 (one_card_state hund)).2)
  = Some "cannot create note because it is a duplicate".
Proof.
  apply (forward_failure_skips_reverse (W := refusing_world)
           (one_card_state hund) 0%nat hund); reflexivity.
Defined.

(** * Audio stage: the retry policy *)

Ltac wp_branch :=
  wp_go;
  repeat (lazymatch goal with
          | |- wp (if ?b then _ else _) _ _ => destruct b eqn:?
          | |- wp (match ?x with _ => _ end) _ _ => destruct x eqn:?
          end; wp_go).

Section Retry.

Context {W : World}.

Lemma synthesis_calls_app l1 l2 :
  synthesis_calls (l1 ++ l2) = (synthesis_calls l1 ++ synthesis_calls l2)%list.
Proof. apply List.filter_app. Qed.

Lemma synthesis_calls_callback_events st msg :
  synthesis_calls (callback_events st msg) = [].
Proof. unfold callback_events. by destruct (has_callback config). Qed.

Lemma synthesis_calls_cancel_events : synthesis_calls cancel_events = [].
Proof.
  unfold cancel_events, synthesis_calls. cbn.
  apply synthesis_calls_callback_events.
Qed.

Lemma synthesis_calls_cancel_piece (c : bool) :
  synthesis_calls (if c then cancel_events else []) = [].
Proof. destruct c; [apply synthesis_calls_cancel_events|done]. Qed.

Lemma synthesis_calls_cons e l :
  synthesis_calls (e :: l) =
  if is_synthesis e then e :: synthesis_calls l else synthesis_calls l.
Proof. done. Qed.

Lemma synthesis_calls_nil : synthesis_calls [] = [].
Proof. done. Qed.

Ltac synthesis_norm :=
  erewrite new_events_app by (cbn; rewrite <- ?app_assoc; reflexivity);
  repeat first
    [ rewrite synthesis_calls_app | rewrite synthesis_calls_cancel_piece
    | rewrite synthesis_calls_cancel_events
    | rewrite synthesis_calls_callback_events
    | rewrite synthesis_calls_cons | rewrite synthesis_calls_nil ];
  cbn [is_synthesis app].

Ltac policy_case Hr :=
  split; [done|split; [by card_norm Hr|synthesis_norm; reflexivity]].

Lemma sentence_retry s r fc w sentence sf :
  heap s !! r = Some fc ->
  let res := generate_sentence_audio r w sentence sf s in
  retry_policy (EvTts r SentenceAudio sentence sf)
    (set_audio_sentence_file (Some (sf ++ ".wav")) fc)
    (fun msg => set_error (Some msg) fc) "sentence"
    (tts env (S (clock s)) sentence sf)
    (tts env (S (S (S (S (clock s))))) sentence sf)
    res.1 (card r res.2) (synthesis_calls (new_events s res.2)).
Proof.
  intros Hr res. subst res.
  change (wp (generate_sentence_audio r w sentence sf) (fun ok s' =>
    retry_policy (EvTts r SentenceAudio sentence sf)
    (set_audio_sentence_file (Some (sf ++ ".wav")) fc)
    (fun msg => set_error (Some msg) fc) "sentence"
    (tts env (S (clock s)) sentence sf)
    (tts env (S (S (S (S (clock s))))) sentence sf)
    ok (card r s') (synthesis_calls (new_events s s'))) s).
  unfold generate_sentence_audio, retry_policy, tts_generate. wp_go.
  destruct (tts env (S (clock s)) sentence sf) as [a|code e|e] eqn:E1;
    [|wp_go..].
  - by unfold wp.
  - destruct (code =? 429) eqn:Ec.
    + wp_go.
      destruct (tts env (S (S (S (S (clock s))))) sentence sf)
        as [a2|c2 e2|e2] eqn:E2; wp_go; policy_case Hr.
    + wp_go. policy_case Hr.
  - policy_case Hr.
Qed.

Lemma word_retry s r fc w wf :
  heap s !! r = Some fc ->
  truthy (get_cached_audio w s).1 = false ->
  let res := generate_word_audio r w wf s in
  retry_policy (EvTts r WordAudio w wf)
    (set_audio_word_file (Some (wf ++ ".wav")) fc)
    (fun msg => set_error (Some msg) fc) "word"
    (tts env (S (clock s)) w wf)
    (tts env (S (S (S (S (clock s))))) w wf)
    res.1 (card r res.2) (synthesis_calls (new_events s res.2)).
Proof.
  intros Hr Hmiss res. subst res.
  change (wp (generate_word_audio r w wf) (fun ok s' =>
    retry_policy (EvTts r WordAudio w wf)
    (set_audio_word_file (Some (wf ++ ".wav")) fc)
    (fun msg => set_error (Some msg) fc) "word"
    (tts env (S (clock s)) w wf)
    (tts env (S (S (S (S (clock s))))) w wf)
    ok (card r s') (synthesis_calls (new_events s s'))) s).
  unfold generate_word_audio, retry_policy, tts_generate. cbv zeta.
  apply wp_bind. unfold get_cached_audio in *. apply wp_gets.
  unfold gets in Hmiss. cbn [fst] in Hmiss. rewrite Hmiss.
  wp_go.
  destruct (tts env (S (clock s)) w wf) as [a|code e|e] eqn:E1; [|wp_go..].
  - by unfold wp.
  - destruct (code =? 429) eqn:Ec.
    + wp_go.
      destruct (tts env (S (S (S (S (clock s))))) w wf)
        as [a2|c2 e2|e2] eqn:E2; wp_go.
      * unfold cache_audio. wp_branch; policy_case Hr.
      * policy_case Hr.
      * policy_case Hr.
    + wp_go. policy_case Hr.
  - policy_case Hr.
Qed.

(** C2. The retry policy of the Audio Stage, for a record [r].  For the
    word call (on a cache miss) and for the sentence call alike: a
    first answer that is a [ClientError] with status 429 is followed by
    one wait of 20 seconds and exactly one retry; if the retry
    succeeds the call reports success, the record gets the audio
    reference of that call and is otherwise unchanged (no error); if
    the retry fails the record gets an error, nothing else of it
    changes (audio already stored for the other part is kept) and no
    further synthesis call is made; any other first failure is not
    retried and sets the error at once.  A failed word call ends
    [generate_audio_for_flashcard] with [False], before any sentence
    call. *)
Theorem rate_limit_single_retry s r fc (Hr : heap s !! r = Some fc) :
  (forall w wf,
     truthy (get_cached_audio w s).1 = false ->
     let res := generate_word_audio r w wf s in
     retry_policy (EvTts r WordAudio w wf)
       (set_audio_word_file (Some (wf ++ ".wav")) fc)
       (fun msg => set_error (Some msg) fc) "word"
       (tts env (S (clock s)) w wf)
       (tts env (S (S (S (S (clock s))))) w wf)
       res.1 (card r res.2) (synthesis_calls (new_events s res.2))) /\
  (forall w sentence sf,
     let res := generate_sentence_audio r w sentence sf s in
     retry_policy (EvTts r SentenceAudio sentence sf)
       (set_audio_sentence_file (Some (sf ++ ".wav")) fc)
       (fun msg => set_error (Some msg) fc) "sentence"
       (tts env (S (clock s)) sentence sf)
       (tts env (S (S (S (S (clock s))))) sentence sf)
       res.1 (card r res.2) (synthesis_calls (new_events s res.2))) /\
  (truthy (error fc) = false ->
   cancelled s = false -> cancel_req env (clock s) = false ->
   let wres := generate_word_audio r (word fc) (normalize_filename (word fc))
                 (tick_state s) in
   wres.1 = false ->
   generate_audio_for_flashcard r s = (false, wres.2)).
Proof.
  split; [|split].
  - intros w wf Hmiss. by apply word_retry.
  - intros w sentence sf. by apply sentence_retry.
  - intros He Hc Hq wres Hw. subst wres.
    rewrite (generate_audio_enters s r fc) by done.
    unfold bind at 1.
    destruct (generate_word_audio r (word fc) (normalize_filename (word fc))
                (tick_state s)) as [ok s1].
    cbn in Hw. subst ok. reflexivity.
Qed.

End Retry.

Lemma rate_limit_single_retry_witness :
  let res := generate_sentence_audio (W := rate_limited_world) 0%nat "en hund"
               "Jeg har en <b>hund</b>." "en_hund_sentence"
               (one_card_state hund) in
  res.1 = true /\
  card 0 res.2 = set_audio_sentence_file (Some "en_hund_sentence.wav") hund.
Proof.
  destruct (rate_limit_single_retry (W := rate_limited_world)
              (one_card_state hund) 0%nat hund eq_refl) as (_ & H & _).
  specialize (H "en hund" "Jeg har en <b>hund</b>." "en_hund_sentence").
  destruct H as (H1 & H2 & _). split; [exact H1|exact H2].
Defined.

(** * Cache store: one synthesis per text *)

Section CacheHit.

Context {W : World}.

Lemma filter_callback_events (p : event -> bool) st msg :
  p (EvCallback st msg) = false -> List.filter p (callback_events st msg) = [].
Proof.
  intros H. unfold callback_events.
  destruct (has_callback config); cbn; [by rewrite H|done].
Qed.

Lemma filter_cancel_piece (p : event -> bool) (c : bool) :
  p (EvSetState CANCELLED) = false ->
  p (EvCallback CANCELLED MsgCancelling) = false ->
  List.filter p (if c then cancel_events else []) = [].
Proof.
  intros H1 H2. destruct c; [|done]. unfold cancel_events. cbn.
  rewrite H1. by apply filter_callback_events.
Qed.

Lemma new_events_trans s s1 s2 :
  emits any_event s s1 -> emits any_event s1 s2 ->
  new_events s s2 = (new_events s s1 ++ new_events s1 s2)%list.
Proof.
  intros (l1 & H1 & _) (l2 & H2 & _).
  rewrite (new_events_app _ _ _ H1), (new_events_app _ _ _ H2).
  apply new_events_app. by rewrite H2, H1, app_assoc.
Qed.

Lemma truthy_wav k : truthy (Some (k ++ ".wav")) = true.
Proof. by destruct k. Qed.

Ltac filter_norm :=
  erewrite new_events_app by (cbn; rewrite <- ?app_assoc; reflexivity);
  unfold calls, synthesis_calls, tts_calls;
  repeat first
    [ rewrite List.filter_app
    | rewrite filter_cancel_piece by reflexivity
    | rewrite filter_callback_events by reflexivity ];
  cbn [List.filter app is_call is_synthesis is_tts].

Lemma word_audio_from_cache s r w wf f :
  cached_as w f s ->
  let res := generate_word_audio r w wf s in
  let cache_path := path_join (audio_cache_dir config) f in
  let word_path := path_join (audio_dir config) (wf ++ ".wav") in
  res.1 = true /\
  calls (new_events s res.2) = [EvCopyFromCache r cache_path word_path] /\
  tts_calls (new_events s res.2) = [] /\
  files res.2 !! word_path = files s !! cache_path /\
  emits any_event s res.2.
Proof.
  intros (Hm & Ht & Hf) res cache_path word_path. subst res.
  split; [|split; [|split; [|split]]].
  5:{ generalize s. change (Pres (emits any_event) (generate_word_audio r w wf)).
      emits_with any_event fail. }
  all: match goal with |- ?P =>
    let Q := eval pattern (generate_word_audio r w wf s) in P in
    lazymatch Q with ?F _ =>
      change (wp (generate_word_audio r w wf) (fun a s' => F (a, s')) s) end end.
  all: unfold generate_word_audio; cbv zeta; apply wp_bind;
    unfold get_cached_audio; apply wp_gets; rewrite Hm;
    unfold exists_file; rewrite bool_decide_eq_true_2 by done; rewrite Ht;
    wp_go.
  - done.
  - filter_norm. reflexivity.
  - filter_norm. reflexivity.
  - destruct Hf as [x Hx]. subst cache_path. rewrite Hx.
    by rewrite lookup_insert_eq.
Qed.

Lemma exists_file_true p s : exists_file p s = true -> is_Some (files s !! p).
Proof. unfold exists_file. by intros ?%bool_decide_eq_true_1. Qed.

Lemma exists_file_false p s : exists_file p s = false -> files s !! p = None.
Proof.
  unfold exists_file. intros H%bool_decide_eq_false_1.
  by apply eq_None_not_Some.
Qed.

Lemma word_audio_fills_cache s r w wf a :
  truthy (get_cached_audio w s).1 = false ->
  tts env (S (clock s)) w wf = TtsOk a ->
  a = path_join (audio_dir config) (wf ++ ".wav") \/
  a = path_join (audio_dir config) (wf ++ ".wav") ++ ".wav" ->
  let res := generate_word_audio r w wf s in
  res.1 = true /\
  cached_as w (get_audio_cache_key w ++ ".wav") res.2 /\
  tts_calls (new_events s res.2) = [EvTts r WordAudio w wf] /\
  emits any_event s res.2.
Proof.
  intros Hmiss Htts Ha res. subst res.
  assert (He : emits any_event s (generate_word_audio r w wf s).2).
  { generalize s. change (Pres (emits any_event) (generate_word_audio r w wf)).
    emits_with any_event fail. }
  split; [|split; [|split; [|exact He]]]; clear He.
  all: match goal with |- ?P =>
    let Q := eval pattern (generate_word_audio r w wf s) in P in
    lazymatch Q with ?F _ =>
      change (wp (generate_word_audio r w wf) (fun a s' => F (a, s')) s) end end.
  all: unfold generate_word_audio, tts_generate; cbv zeta; apply wp_bind;
    unfold get_cached_audio in *; apply wp_gets;
    unfold gets in Hmiss; cbn [fst] in Hmiss; rewrite Hmiss;
    wp_go; rewrite Htts; wp_go; unfold cache_audio; wp_branch.
  all: repeat match goal with
       | H : exists_file _ _ = true |- _ => apply exists_file_true in H; cbn in H
       | H : exists_file _ _ = false |- _ => apply exists_file_false in H; cbn in H
       end.
  all: try (exfalso; destruct Ha as [-> | ->];
            match goal with
            | H : <[?k:=_]> _ !! ?k = None |- _ =>
                by rewrite lookup_insert_eq in H
            end).
  all: try done.
  all: try (filter_norm; reflexivity).
  all: unfold cached_as; cbn; rewrite lookup_insert_eq;
       (split; [done|split; [apply truthy_wav|]]).
  all: match goal with
       | H : is_Some (?m !! ?k) |- context [match ?m !! ?k with _ => _ end] =>
           destruct H as [x Hx]; rewrite Hx; by rewrite lookup_insert_eq
       end.
Qed.

(** C6. Two requests for the word audio of the same text, the cache
    holding nothing for it at first and the backend answering the first
    request with an artifact at the expected path (or at that path with
    the extension doubled).  The first request stores a cache entry
    under the digest of the text; the second is served by one copy of
    the cached artifact into the audio directory; and over both
    requests the backend is called exactly once. *)
Theorem identical_text_synthesised_once s r1 r2 w wf a :
  truthy (get_cached_audio w s).1 = false ->
  tts env (S (clock s)) w wf = TtsOk a ->
  a = path_join (audio_dir config) (wf ++ ".wav") \/
  a = path_join (audio_dir config) (wf ++ ".wav") ++ ".wav" ->
  let s1 := (generate_word_audio r1 w wf s).2 in
  let s2 := (generate_word_audio r2 w wf s1).2 in
  let key := get_audio_cache_key w in
  let cache_path := path_join (audio_cache_dir config) (key ++ ".wav") in
  let word_path := path_join (audio_dir config) (wf ++ ".wav") in
  cached_as w (key ++ ".wav") s1 /\
  calls (new_events s1 s2) = [EvCopyFromCache r2 cache_path word_path] /\
  files s2 !! word_path = files s1 !! cache_path /\
  tts_calls (new_events s s2) = [EvTts r1 WordAudio w wf].
Proof.
  intros Hmiss Htts Ha s1 s2 key cache_path word_path.
  destruct (word_audio_fills_cache s r1 w wf a Hmiss Htts Ha)
    as (_ & Hc & Ht1 & He1).
  fold s1 in Hc, Ht1, He1.
  destruct (word_audio_from_cache s1 r2 w wf (key ++ ".wav") Hc)
    as (_ & Hcalls & Ht2 & Hfiles & He2).
  fold s2 in Hcalls, Ht2, Hfiles, He2.
  split; [exact Hc|]. split; [exact Hcalls|]. split; [exact Hfiles|].
  rewrite (new_events_trans s s1 s2 He1 He2).
  unfold tts_calls in *. by rewrite List.filter_app, Ht1, Ht2.
Qed.

End CacheHit.

Lemma identical_text_synthesised_once_witness :
  let s1 := (generate_word_audio (W := sample_world) 0%nat "en hund" "en_hund"
               (one_card_state hund)).2 in
  let s2 := (generate_word_audio 0%nat "en hund" "en_hund" s1).2 in
  tts_calls (new_events (one_card_state hund) s2)
  = [EvTts 0%nat WordAudio "en hund" "en_hund"].
Proof.
  apply (identical_text_synthesised_once (W := sample_world)
           (one_card_state hund) 0%nat 0%nat "en hund" "en_hund"
           "./audio/en_hund.wav");
    [reflexivity|reflexivity|left; reflexivity].
Defined.

(** * Records that carry an error *)

Section Errored.

Context {W : World}.

Lemma leaves_alone_refl r s : leaves_alone r s s.
Proof. split; [done|apply emits_refl]. Qed.

Lemma leaves_alone_trans r s1 s2 s3 :
  leaves_alone r s1 s2 -> leaves_alone r s2 s3 -> leaves_alone r s1 s3.
Proof.
  intros [H1 E1] [H2 E2]. split; [congruence|by eapply emits_trans].
Qed.

Lemma card_alter_ne (r r' : nat) f (h : list FlashcardData) : r' <> r ->
  default no_card (alter f r' h !! r) = default no_card (h !! r).
Proof. intros H. by rewrite list_lookup_alter_ne. Qed.

Ltac alone_leaf :=
  split;
  [ unfold card; cbn; rewrite ?card_alter_ne by done; reflexivity
  | emits_leaf ltac:(unfold spares, acts_on; rewrite bool_decide_eq_false_2 by done) ].

Ltac alone r known :=
  pres_with (leaves_alone_refl r) (leaves_alone_trans r) known alone_leaf.

Lemma Ignores_of_Pres {A} r (m : M A) : Pres (leaves_alone r) m -> Ignores r m.
Proof. intros H s _. apply H. Qed.

Lemma Ignores_bind {A B} r (m : M A) (k : A -> M B) :
  Ignores r m -> (forall a, Ignores r (k a)) -> Ignores r (bind m k).
Proof.
  intros Hm Hk s Hs. unfold bind. specialize (Hm s Hs).
  destruct (m s) as [a s1]. cbn in Hm.
  eapply leaves_alone_trans; [exact Hm|]. apply Hk.
  unfold errored in *. destruct Hm as [-> _]. exact Hs.
Qed.

Lemma Ignores_for_each {A} r (body : A -> M unit) l :
  (forall x, Ignores r (body x)) -> Ignores r (for_each body l).
Proof.
  intros H. induction l as [|x l IH]; cbn [for_each].
  - apply Ignores_of_Pres. apply Pres_ret, leaves_alone_refl.
  - apply Ignores_bind; auto.
Qed.

Lemma generate_audio_other r r' :
  r' <> r -> Pres (leaves_alone r) (generate_audio_for_flashcard r').
Proof. intros Hne. alone r fail. Qed.


Ltac ignores_with r known :=
  repeat first
    [ known
    | lazymatch goal with
      | |- Ignores _ (bind _ _) => apply Ignores_bind; [|intros; cbv beta]
      | |- Ignores _ (for_each _ _) => apply Ignores_for_each; intros; cbv beta
      | |- Ignores _ (if ?b then _ else _) => destruct b
      | |- Ignores _ (match ?x with _ => _ end) => destruct x
      | |- Ignores _ (let _ := _ in _) => cbv zeta
      end
    | apply Ignores_of_Pres; solve [alone r fail]
    | lazymatch goal with
      | |- Ignores _ ?m => let h := head_of m in unfold h
      end ].

Lemma errored_card r s fc : errored r s -> card r s = fc -> truthy (error fc) = true.
Proof. by intros H <-. Qed.

Lemma generate_audio_ignores r r' : Ignores r (generate_audio_for_flashcard r').
Proof.
  destruct (decide (r' = r)) as [->|Hne];
    [|by apply Ignores_of_Pres, generate_audio_other].
  intros s Hs.
  change (wp (generate_audio_for_flashcard r)
            (fun _ s' => leaves_alone r s s') s).
  unfold generate_audio_for_flashcard. wp_go.
  destruct (cancel_req env (clock s) || cancelled s); wp_go.
  - alone_leaf.
  - unfold card at 1. cbn. fold (card r s). rewrite Hs. wp_go. alone_leaf.
Qed.

Lemma copy_step_ignores r dir r' : Ignores r (copy_step dir r').
Proof.
  destruct (decide (r' = r)) as [->|Hne].
  - intros s Hs.
    change (wp (copy_step dir r) (fun _ s' => leaves_alone r s s') s).
    unfold copy_step. wp_go. rewrite Hs. wp_go. apply leaves_alone_refl.
  - apply Ignores_of_Pres. alone r fail.
Qed.

Lemma send_step_ignores r r' : Ignores r (send_step r').
Proof.
  destruct (decide (r' = r)) as [->|Hne].
  - intros s Hs.
    change (wp (send_step r) (fun _ s' => leaves_alone r s s') s).
    unfold send_step. wp_go. rewrite Hs. wp_go. apply leaves_alone_refl.
  - apply Ignores_of_Pres. alone r fail.
Qed.

Lemma audio_loop_ignores r n i l : Ignores r (audio_loop n i l).
Proof.
  revert i. induction l as [|r' l IH]; intros i; cbn [audio_loop].
  - ignores_with r fail.
  - ignores_with r ltac:(first [apply IH | apply generate_audio_ignores]).
Qed.

Lemma copy_audio_to_anki_ignores r l : Ignores r (copy_audio_to_anki l).
Proof. ignores_with r ltac:(apply copy_step_ignores). Qed.

Lemma send_to_anki_ignores r l : Ignores r (send_to_anki l).
Proof. ignores_with r ltac:(apply send_step_ignores). Qed.

Lemma after_content_ignores r l : Ignores r (after_content l).
Proof.
  ignores_with r ltac:(first [apply audio_loop_ignores
                             |apply copy_audio_to_anki_ignores
                             |apply send_to_anki_ignores]).
Qed.


(** C1, as the code has it.  A record whose error is a non-empty string
    is acted on by no later stage: the Audio Stage (called for any
    record), the audio phase, the staging of audio files, the
    submission of notes and all of [run] after the content phase leave
    the record unchanged, error included, and make no synthesis call,
    no copy and no note for it. *)
Theorem errored_record_is_left_alone r s :
  errored r s ->
  (forall r', leaves_alone r s (generate_audio_for_flashcard r' s).2) /\
  (forall n i l, leaves_alone r s (audio_loop n i l s).2) /\
  (forall l, leaves_alone r s (copy_audio_to_anki l s).2) /\
  (forall l, leaves_alone r s (send_to_anki l s).2) /\
  (forall l, leaves_alone r s (after_content l s).2).
Proof.
  intros Hs. repeat split; intros.
  - by apply generate_audio_ignores.
  - by apply generate_audio_ignores.
  - by apply audio_loop_ignores.
  - by apply audio_loop_ignores.
  - by apply copy_audio_to_anki_ignores.
  - by apply copy_audio_to_anki_ignores.
  - by apply send_to_anki_ignores.
  - by apply send_to_anki_ignores.
  - by apply after_content_ignores.
  - by apply after_content_ignores.
Qed.

End Errored.

Lemma errored_record_is_left_alone_witness :
  leaves_alone 0 failed_card_state (after_content [0%nat] failed_card_state).2.
Proof.
  apply (errored_record_is_left_alone (W := sample_world) 0%nat
           failed_card_state). reflexivity.
Defined.

(** C1 as stated fails for the error [""], which is not null: the Audio
    Stage synthesises for such a record and the Publish Stage submits
    its notes; a checkpoint file holding such a record brings it into a
    run, which then acts on it. *)
Lemma empty_error_record_is_processed :
  error (card 0 blank_error_state) = Some "" /\
  error (card 0 blank_error_state) <> None /\
  existsb (acts_on 0)
    (new_events blank_error_state
       (generate_audio_for_flashcard 0%nat blank_error_state).2) = true /\
  existsb (acts_on 0)
    (new_events blank_error_state
       (send_to_anki [0%nat] blank_error_state).2) = true /\
  (let s0 := init (W := sample_world) (Some (Some blank_error_checkpoint))
               None ∅ in
   error (card 0 s0) = Some "" /\
   existsb (acts_on 0) (new_events s0 (run s0).2) = true).
Proof.
  split; [reflexivity|]. split; [discriminate|].
  split; [vm_compute; reflexivity|]. split; [vm_compute; reflexivity|].
  split; vm_compute; reflexivity.
Qed.

(** * The state machine of a run *)

Ltac cancelled_leaf :=
  unfold stays_cancelled; cbn; intros ->; by rewrite ?orb_true_r.

Section Machine.

Context {W : World}.

Lemma transitions_app l1 l2 :
  transitions (l1 ++ l2) = (transitions l1 ++ transitions l2)%list.
Proof. apply omap_app. Qed.

Lemma transitions_callback_events st msg :
  transitions (callback_events st msg) = [].
Proof. unfold callback_events. by destruct (has_callback config). Qed.

Lemma transitions_cancel_events : transitions cancel_events = [].
Proof.
  unfold cancel_events, transitions. cbn. apply transitions_callback_events.
Qed.

Lemma transitions_cancel_piece (c : bool) :
  transitions (if c then cancel_events else []) = [].
Proof. destruct c; [apply transitions_cancel_events|done]. Qed.

Lemma transitions_none l :
  forallb no_transition l = true -> transitions l = [].
Proof.
  induction l as [|e l IH]; [done|]. cbn. intros [He Hl]%andb_true_iff.
  unfold transitions in *. cbn. unfold no_transition in He.
  destruct (transition_of e); [done|]. by apply IH.
Qed.

Lemma transitions_early l :
  forallb early_event l = true -> forallb early_state (transitions l) = true.
Proof.
  induction l as [|e l IH]; [done|]. cbn. intros [He Hl]%andb_true_iff.
  unfold transitions in *. cbn. unfold early_event in He.
  destruct (transition_of e); cbn; [rewrite He|]; by apply IH.
Qed.

Lemma moves_trans l1 l2 s1 s2 s3 :
  moves l1 s1 s2 -> moves l2 s2 s3 -> moves (l1 ++ l2) s1 s3.
Proof.
  intros (e1 & H1 & T1) (e2 & H2 & T2). exists (e1 ++ e2)%list. split.
  - by rewrite H2, H1, app_assoc.
  - by rewrite transitions_app, T1, T2.
Qed.

Lemma moves_none s s' : emits no_transition s s' -> moves [] s s'.
Proof. intros (l & H & F). exists l. split; [done|]. by apply transitions_none. Qed.

Lemma moves_new_events l s s' :
  moves l s s' -> transitions (new_events s s') = l.
Proof. intros (evs & H & T). by rewrite (new_events_app _ _ _ H). Qed.

Ltac quiet known :=
  let p := constr:(no_transition) in emits_with p known.

Lemma copy_loop_quiet dir l : Pres (emits no_transition) (for_each (copy_step dir) l).
Proof. quiet fail. Qed.

Lemma send_loop_quiet l : Pres (emits no_transition) (for_each send_step l).
Proof. quiet fail. Qed.

Lemma get_anki_media_dir_quiet : Pres (emits no_transition) get_anki_media_dir.
Proof. quiet fail. Qed.


Ltac early known :=
  let p := constr:(early_event) in emits_with p known.

Ltac transitions_norm :=
  repeat first
    [ rewrite transitions_app | rewrite transitions_cancel_piece
    | rewrite transitions_cancel_events | rewrite transitions_callback_events ].

(** The state changes up to an explicit state. *)
Ltac moves_now :=
  eexists; split;
  [ cbn; rewrite <- ?app_assoc; reflexivity
  | transitions_norm; reflexivity ].

Lemma moves_then_quiet l s s1 s2 :
  moves l s s1 -> emits no_transition s1 s2 -> moves l s s2.
Proof.
  intros H1 H2%moves_none. rewrite <- (app_nil_r l). by eapply moves_trans.
Qed.

Lemma copy_audio_to_anki_moves l s :
  let res := copy_audio_to_anki l s in
  res.1 = dir_exists env (resolved_media_dir s) /\
  moves [COPYING_AUDIO] s res.2.
Proof.
  cbv zeta.
  change (wp (copy_audio_to_anki l) (fun b s' =>
    b = dir_exists env (resolved_media_dir s) /\ moves [COPYING_AUDIO] s s') s).
  unfold copy_audio_to_anki, get_anki_media_dir, resolved_media_dir. wp_go.
  destruct (media_dir_query env (S (clock s))) as [d|e]; wp_go.
  - destruct (dir_exists env d); cbn; wp_go.
    + apply (wp_pres (emits no_transition)); [apply copy_loop_quiet|].
      intros _ s' Hq. wp_go. split; [done|].
      eapply moves_then_quiet; [|exact Hq]. moves_now.
    + split; [done|]. moves_now.
  - destruct (dir_exists env fallback_media_dir); cbn; wp_go.
    + apply (wp_pres (emits no_transition)); [apply copy_loop_quiet|].
      intros _ s' Hq. wp_go. split; [done|].
      eapply moves_then_quiet; [|exact Hq]. moves_now.
    + split; [done|]. moves_now.
Qed.

Lemma send_to_anki_moves l s : moves [SENDING_TO_ANKI] s (send_to_anki l s).2.
Proof.
  change (wp (send_to_anki l) (fun _ s' => moves [SENDING_TO_ANKI] s s') s).
  unfold send_to_anki. wp_go.
  apply (wp_pres (emits no_transition)); [apply send_loop_quiet|].
  intros _ s' Hq. eapply moves_then_quiet; [|exact Hq]. moves_now.
Qed.

Lemma finish_moves (msg : log_msg) s :
  moves [COMPLETED] s
    ((_update_state COMPLETED msg ;;;
      disk <- gets checkpoint_disk ;;
      match disk with
      | Some _ => emit EvRemoveCheckpoint ;;; modify (set_checkpoint_disk None)
      | None => ret tt
      end) s).2.
Proof.
  match goal with |- moves _ _ (?m s).2 =>
    change (wp m (fun _ s' => moves [COMPLETED] s s') s) end.
  wp_go. destruct (checkpoint_disk s); wp_go; moves_now.
Qed.

Lemma publish_and_finish_moves l s :
  moves (COPYING_AUDIO ::
         (if dir_exists env (resolved_media_dir s)
          then [SENDING_TO_ANKI] else []) ++ [COMPLETED])
    s (publish_and_finish l s).2.
Proof.
  unfold publish_and_finish. unfold bind at 1.
  destruct (copy_audio_to_anki_moves l s) as [Hb Hm].
  destruct (copy_audio_to_anki l s) as [b s1]. cbn [fst snd] in Hb, Hm.
  rewrite <- Hb. unfold bind at 1.
  change (COPYING_AUDIO :: (if b then [SENDING_TO_ANKI] else []) ++ [COMPLETED])
    with ([COPYING_AUDIO] ++ (if b then [SENDING_TO_ANKI] else []) ++ [COMPLETED])%list.
  destruct b.
  - pose proof (send_to_anki_moves l s1) as Hs.
    destruct (send_to_anki l s1) as [[] s2]. cbn [snd] in Hs.
    unfold bind at 1. unfold gets at 1.
    eapply moves_trans; [exact Hm|]. eapply moves_trans; [exact Hs|].
    apply finish_moves.
  - unfold ret at 1. unfold bind at 1. unfold gets at 1.
    eapply moves_trans; [exact Hm|]. apply finish_moves.
Qed.


Lemma moves_early s s' :
  emits early_event s s' ->
  exists pre, moves pre s s' /\ forallb early_state pre = true.
Proof.
  intros (l & H & F). exists (transitions l). split; [by exists l|].
  by apply transitions_early.
Qed.

Lemma shape_early s s' : emits early_event s s' -> shape s s'.
Proof.
  intros (pre & Hm & Hp)%moves_early. exists pre, []. rewrite app_nil_r.
  split; [done|]. split; [done|]. by left.
Qed.

Lemma shape_after_early s s1 s2 :
  emits early_event s s1 -> shape s1 s2 -> shape s s2.
Proof.
  intros (p1 & Hm1 & Hp1)%moves_early (p2 & tail & Hm2 & Hp2 & Ht).
  exists (p1 ++ p2)%list, tail. rewrite <- app_assoc.
  split; [by eapply moves_trans|]. split; [|done].
  by rewrite forallb_app, Hp1, Hp2.
Qed.

Lemma shape_then_quiet s s1 s2 :
  shape s s1 -> emits no_transition s1 s2 -> shape s s2.
Proof.
  intros (pre & tail & Hm & Hp & Ht) Hq. exists pre, tail.
  split; [by eapply moves_then_quiet|done].
Qed.

Lemma Shaped_bind {A B} (m : M A) (k : A -> M B) :
  Pres (emits early_event) m -> (forall a, Shaped (k a)) -> Shaped (bind m k).
Proof.
  intros Hm Hk s. unfold bind. specialize (Hm s).
  destruct (m s) as [a s1]. eapply shape_after_early; [exact Hm|apply Hk].
Qed.

Lemma Shaped_early {A} (m : M A) : Pres (emits early_event) m -> Shaped m.
Proof. intros H s. apply shape_early, H. Qed.

Lemma content_loop_early n i ws fl :
  Pres (emits early_event) (content_loop n i ws fl).
Proof.
  revert i fl. induction ws as [|w ws IH]; intros i fl; cbn [content_loop].
  - early fail.
  - early ltac:(apply IH).
Qed.

Lemma audio_loop_early n i l : Pres (emits early_event) (audio_loop n i l).
Proof.
  revert i. induction l as [|r l IH]; intros i; cbn [audio_loop].
  - early fail.
  - early ltac:(apply IH).
Qed.

Lemma run_failed_shaped e : Shaped (run_failed e).
Proof.
  intros s. exists [], [FAILED]. split; [|split; [done|right; by left]].
  change (wp (run_failed e) (fun _ s' => moves [FAILED] s s') s).
  unfold run_failed. wp_go. moves_now.
Qed.

Lemma publish_and_finish_shaped l : Shaped (publish_and_finish l).
Proof.
  intros s. exists []. eexists. split; [apply publish_and_finish_moves|].
  split; [done|]. unfold run_ending.
  destruct (dir_exists env (resolved_media_dir s)); cbn; auto.
Qed.

Ltac shaped known :=
  repeat first
    [ known
    | lazymatch goal with
      | |- Shaped (bind _ _) =>
          apply Shaped_bind;
          [solve [early ltac:(first [apply content_loop_early
                                    |apply audio_loop_early])]
          |intros; cbv beta]
      | |- Shaped (if ?b then _ else _) => destruct b
      | |- Shaped (match ?x with _ => _ end) => destruct x
      | |- Shaped (ret _) => apply Shaped_early; early fail
      end ].

Lemma after_content_shaped l : Shaped (after_content l).
Proof.
  unfold after_content.
  shaped ltac:(apply publish_and_finish_shaped).
Qed.

Lemma run_shaped : Shaped run.
Proof.
  unfold run.
  shaped ltac:(first [apply run_failed_shaped]).
  intros s0. unfold bind. pose proof (after_content_shaped a1 s0) as H.
  destruct (after_content a1 s0) as [[] s1]. exact H.
Qed.

Lemma last_early_not_completed pre :
  forallb early_state pre = true -> last pre <> Some COMPLETED.
Proof.
  intros H Hl. apply last_Some in Hl as [l' ->].
  rewrite forallb_app in H. apply andb_true_iff in H as [_ H]. done.
Qed.

Lemma stays_cancelled_refl s : stays_cancelled s s.
Proof. unfold stays_cancelled. auto. Qed.
Lemma stays_cancelled_trans s1 s2 s3 :
  stays_cancelled s1 s2 -> stays_cancelled s2 s3 -> stays_cancelled s1 s3.
Proof. unfold stays_cancelled. auto. Qed.

Ltac cancelled_tac known :=
  pres_with stays_cancelled_refl stays_cancelled_trans known cancelled_leaf.

Lemma send_step_stays_cancelled r : Pres stays_cancelled (send_step r).
Proof. cancelled_tac fail. Qed.

Lemma send_loop_stays_cancelled l : Pres stays_cancelled (for_each send_step l).
Proof. cancelled_tac fail. Qed.

Lemma send_step_extends r : Pres (emits any_event) (send_step r).
Proof. emits_with any_event fail. Qed.

Lemma send_loop_extends l : Pres (emits any_event) (for_each send_step l).
Proof. emits_with any_event fail. Qed.

Lemma send_step_submits r s :
  truthy (error (card r s)) = false ->
  let s1 := (send_step r s).2 in
  cancelled s1 = true \/
  In (EvAddNote r Forward (forward_note (card r s))) (new_events s s1).
Proof.
  intros He. cbv zeta.
  change (wp (send_step r) (fun _ s1 =>
    cancelled s1 = true \/
    In (EvAddNote r Forward (forward_note (card r s))) (new_events s s1)) s).
  unfold send_step. wp_go. rewrite He. wp_go.
  destruct (cancel_req env (clock s) || cancelled s) eqn:Ec; wp_go.
  - by left.
  - match goal with |- wp ?m _ ?s2 =>
      assert (H2 : emits any_event s s2) by (emits_leaf fail);
      assert (Hin : In (EvAddNote r Forward (forward_note (card r s)))
                       (new_events s s2))
    end.
    { erewrite new_events_app by (cbn; rewrite <- ?app_assoc; reflexivity).
      rewrite !in_app_iff. right. right. by left. }
    apply (wp_pres (emits any_event)); [emits_with any_event fail|].
    intros _ s3 H3. right. eapply emits_in; eassumption.
Qed.

Lemma send_loop_covers l s :
  let s' := (for_each send_step l s).2 in
  cancelled s' = false ->
  forall r, In r l ->
    errored r s' \/ exists n, In (EvAddNote r Forward n) (new_events s s').
Proof.
  revert s. induction l as [|r0 l IH]; intros s s' Hc r Hin; [done|].
  subst s'. cbn [for_each] in *. unfold bind in *.
  pose proof (send_step_extends r0 s) as He1.
  pose proof (send_step_stays_cancelled r0 s) as Hc1.
  pose proof (send_step_ignores r0 r0 s) as Hi1.
  pose proof (send_step_submits r0 s) as Hs1.
  destruct (send_step r0 s) as [[] s1]. cbn [snd] in *.
  pose proof (send_loop_extends l s1) as He2.
  pose proof (send_loop_stays_cancelled l s1) as Hc2.
  pose proof (Ignores_for_each r0 send_step l (send_step_ignores r0) s1) as Hi2.
  specialize (IH s1 Hc).
  destruct Hin as [<-|Hin].
  - destruct (truthy (error (card r0 s))) eqn:He.
    + left. destruct (Hi1 He) as [E1 _].
      assert (H1 : errored r0 s1) by (unfold errored; by rewrite E1).
      destruct (Hi2 H1) as [E2 _]. unfold errored. by rewrite E2.
    + destruct (Hs1 eq_refl) as [Hcan|Hin].
      * apply Hc2 in Hcan. congruence.
      * right. eexists. eapply emits_in; eassumption.
  - destruct (IH r Hin) as [?|[n Hn]]; [by left|]. right. exists n.
    rewrite (new_events_trans s s1 _ He1 He2). apply in_or_app. by right.
Qed.

Lemma send_to_anki_covers l s :
  let s' := (send_to_anki l s).2 in
  cancelled s' = false ->
  forall r, In r l ->
    errored r s' \/ exists n, In (EvAddNote r Forward n) (new_events s s').
Proof.
  cbv zeta. unfold send_to_anki. unfold bind.
  assert (He : Pres (emits any_event)
                 (_update_state SENDING_TO_ANKI MsgSending))
    by (emits_with any_event fail).
  specialize (He s).
  destruct (_update_state SENDING_TO_ANKI MsgSending s) as [[] s1].
  cbn [snd] in He. intros Hc r Hin.
  destruct (send_loop_covers l s1 Hc r Hin) as [?|[n Hn]]; [by left|].
  right. exists n.
  rewrite (new_events_trans s s1 _ He (send_loop_extends l s1)).
  apply in_or_app. by right.
Qed.

(** C5, as the code has it.  A run whose last state change is to
    [COMPLETED] went, after its early phases (reading, content, audio),
    through [COPYING_AUDIO] and then either through [SENDING_TO_ANKI]
    or straight to [COMPLETED]; the second happens exactly when the
    media directory that the staging resolves does not exist, in which
    case the Publish Stage is not invoked.  When it is invoked, it is
    over the whole record list: unless a cancellation intervenes, every
    record of the list either carries an error at the end or had its
    forward note submitted. *)
Theorem completed_run_passes_through_staging s :
  let tr := transitions (new_events s (run s).2) in
  last tr = Some COMPLETED ->
  (exists pre,
     forallb early_state pre = true /\
     (tr = (pre ++ [COPYING_AUDIO; SENDING_TO_ANKI; COMPLETED])%list \/
      tr = (pre ++ [COPYING_AUDIO; COMPLETED])%list)) /\
  (forall l s1,
     transitions (new_events s1 (publish_and_finish l s1).2) =
       COPYING_AUDIO ::
       (if dir_exists env (resolved_media_dir s1)
        then [SENDING_TO_ANKI] else []) ++ [COMPLETED]) /\
  (forall l s1,
     let s2 := (send_to_anki l s1).2 in
     cancelled s2 = false ->
     forall r, In r l ->
       errored r s2 \/
       exists n, In (EvAddNote r Forward n) (new_events s1 s2)).
Proof.
  intros tr Hlast. subst tr. split; [|split].
  - destruct (run_shaped s) as (pre & tail & Hm & Hp & Ht).
    rewrite (moves_new_events _ _ _ Hm) in *.
    exists pre. split; [done|].
    destruct Ht as [->|[->|[->| ->]]]; auto.
    + rewrite app_nil_r in Hlast. by apply last_early_not_completed in Hlast.
    + rewrite last_snoc in Hlast. done.
  - intros l s1. apply moves_new_events, publish_and_finish_moves.
  - intros l s1. apply send_to_anki_covers.
Qed.

End Machine.

Lemma completed_run_passes_through_staging_witness :
  let s := init (W := sample_world) None None ∅ in
  exists pre,
    forallb early_state pre = true /\
    (transitions (new_events s (run s).2)
       = (pre ++ [COPYING_AUDIO; SENDING_TO_ANKI; COMPLETED])%list \/
     transitions (new_events s (run s).2)
       = (pre ++ [COPYING_AUDIO; COMPLETED])%list).
Proof.
  apply (completed_run_passes_through_staging (W := sample_world)
           (init None None ∅)).
  vm_compute. reflexivity.
Defined.

(** C5 as stated fails when Anki's media directory is not found: the
    run ends in [COMPLETED] without ever entering [SENDING_TO_ANKI] and
    without submitting a note. *)
Lemma completed_without_sending :
  let s := init (W := no_media_world) None None ∅ in
  let s' := (run s).2 in
  state s' = COMPLETED /\
  last (transitions (new_events s s')) = Some COMPLETED /\
  transitions (new_events s s')
  = [READING_WORDS; GENERATING_CONTENT; GENERATING_CONTENT;
     GENERATING_CONTENT; GENERATING_AUDIO; GENERATING_AUDIO;
     GENERATING_AUDIO; GENERATING_AUDIO; GENERATING_AUDIO; GENERATING_AUDIO;
     COPYING_AUDIO; COMPLETED] /\
  existsb is_add_note (new_events s s') = false.
Proof. vm_compute. repeat split; reflexivity. Qed.

(** * Cancellation between words *)

Section Cancellation.

Context {W : World}.

Lemma dom_snapshot s : dom (checkpoint_snapshot s) = dom (checkpoint s).
Proof. unfold checkpoint_snapshot. apply dom_fmap_L. Qed.

Lemma truthy_prefixed c p w : truthy (Some (String c p ++ w)) = true.
Proof. done. Qed.

Lemma lookup_new (h : list FlashcardData) c :
  (h ++ [c])%list !! length h = Some c.
Proof. by apply list_lookup_middle. Qed.

Lemma content_step_spec n i w fl s :
  in_sync s ->
  exists r,
    (content_step n i w fl s).1 = (fl ++ [r])%list /\
    let s1 := (content_step n i w fl s).2 in
    (r < length (heap s1))%nat /\ heap_grows s s1 /\ in_sync s1 /\
    dom (checkpoint s1)
    = dom (checkpoint s) ∪ (if truthy (error (card r s1)) then ∅ else {[ w ]}).
Proof.
  intros [Hd Hv].
  change (wp (content_step n i w fl) (fun fl1 s1 =>
    exists r, fl1 = (fl ++ [r])%list /\
    (r < length (heap s1))%nat /\ heap_grows s s1 /\ in_sync s1 /\
    dom (checkpoint s1)
    = dom (checkpoint s) ∪ (if truthy (error (card r s1)) then ∅ else {[ w ]})) s).
  unfold content_step, generate_content_for_word. wp_go.
  destruct (checkpoint s !! w) as [r|] eqn:Hck; wp_go.
  - unfold card. cbn. fold (card r s).
    destruct (truthy (error (card r s))) eqn:He; cbn; wp_go.
    all: exists r; split; [done|]; cbn; split; [by eapply Hv|].
    all: split; [exists []; by rewrite app_nil_r|].
    all: unfold card; cbn; fold (card r s); rewrite He.
    + split; [done|]. set_solver.
    + split.
      * split; [unfold disk_words; cbn; by rewrite dom_snapshot|].
        cbn. intros w' r' [[-> ->]|[_ H]]%lookup_insert_Some; eauto.
      * apply elem_of_dom_2 in Hck. rewrite dom_insert_L. set_solver.
  - destruct (gemini env (S (S (clock s))) w) as [w' tr da en| |e]; wp_go.
    all: unfold card; cbn; rewrite lookup_new; cbn -[truthy].
    all: rewrite ?truthy_prefixed; cbn; wp_go.
    all: exists (length (heap s)); split; [done|].
    all: split; [rewrite length_app; cbn; lia|].
    all: split; [by eexists|].
    all: unfold card; cbn; rewrite lookup_new; cbn -[truthy].
    all: rewrite ?truthy_prefixed; cbn.
    + split.
      * split; [unfold disk_words; cbn; by rewrite dom_snapshot|].
        cbn. intros w0 r0 [[<- <-]|[_ H]]%lookup_insert_Some;
          rewrite length_app; cbn; [lia|]. apply Hv in H. lia.
      * rewrite dom_insert_L. set_solver.
    + split; [|set_solver].
      split; [exact Hd|]. cbn. intros w0 r0 H. rewrite length_app.
      apply Hv in H. lia.
    + split; [|set_solver].
      split; [exact Hd|]. cbn. intros w0 r0 H. rewrite length_app.
      apply Hv in H. lia.
Qed.

Lemma poll_eq s :
  poll_cancelled s = (cancel_req env (clock s) || cancelled s, tick_state s).
Proof. unfold poll_cancelled, bind, gets. by rewrite tick_eq. Qed.

Lemma in_sync_tick s : in_sync s -> in_sync (tick_state s).
Proof. done. Qed.

Lemma heap_grows_refl s : heap_grows s s.
Proof. exists []. by rewrite app_nil_r. Qed.

Lemma heap_grows_trans s1 s2 s3 :
  heap_grows s1 s2 -> heap_grows s2 s3 -> heap_grows s1 s3.
Proof.
  intros [l1 H1] [l2 H2]. exists (l1 ++ l2)%list. by rewrite H2, H1, app_assoc.
Qed.

Lemma card_stable r s s' :
  heap_grows s s' -> (r < length (heap s))%nat -> card r s' = card r s.
Proof.
  intros [l H] Hr. unfold card. rewrite H. by rewrite lookup_app_l.
Qed.

Lemma heap_grows_length s s' :
  heap_grows s s' -> (length (heap s) <= length (heap s'))%nat.
Proof. intros [l H]. rewrite H, length_app. lia. Qed.

Lemma content_loop_cons n i w ws fl s :
  content_loop n i (w :: ws) fl s =
  if cancel_req env (clock s) || cancelled s then (fl, tick_state s)
  else let (fl1, s1) := content_step n i w fl (tick_state s) in
       content_loop n (i + 1) ws fl1 s1.
Proof.
  cbn [content_loop]. unfold bind at 1. rewrite poll_eq.
  by destruct (cancel_req env (clock s) || cancelled s).
Qed.











Lemma run_eq s lines words :
  words_lines env = Some lines ->
  List.filter keep_line (List.map strip lines) = words -> words <> [] ->
  run s =
  (run_prologue words ;;;
   fl <- content_loop (Z.of_nat (length words)) 1 words [] ;;
   after_content fl ;;; ret None) s.
Proof.
  intros Hl Hf Hne. unfold run, read_words, run_prologue.
  rewrite Hl. cbv zeta. rewrite Hf.
  destruct words as [|w ws]; [done|].
  unfold _update_state, _log, bind, ret, modify.
  repeat (rewrite tick_eq; cbv iota beta).
  reflexivity.
Qed.





End Cancellation.

(** The scenario of the spec: cancellation requested after the first of
    three words. *)
Example cancelled_after_first_of_three :
  let s := init (W := cancelling_world) None None ∅ in
  let s' := (run s).2 in
  state s' = CANCELLED /\
  size (disk_words s') = 1%nat /\
  calls (new_events s s') = [EvGemini "hund"; EvSaveCheckpoint].
Proof. vm_compute. repeat split; reflexivity. Qed.

(** * File names and the word list (core.py 248-271) *)

Section FileNames.

Lemma keep_safe_all s : all_chars is_safe_char (keep_safe s) = true.
Proof.
  induction s as [|c s IH]; cbn; [done|].
  destruct (is_safe_char c) eqn:E; cbn; [by rewrite E|done].
Qed.

Lemma safe_not_space c : is_safe_char c = true -> is_space c = false.
Proof. destruct c as [[] [] [] [] [] [] [] []]; vm_compute; congruence. Qed.

Lemma safe_not_open c : is_safe_char c = true -> Ascii.eqb c "<"%char = false.
Proof. destruct c as [[] [] [] [] [] [] [] []]; vm_compute; congruence. Qed.

Lemma keep_safe_id s : all_chars is_safe_char s = true -> keep_safe s = s.
Proof.
  induction s as [|c s IH]; cbn; [done|].
  intros [Hc Hs]%andb_prop. rewrite Hc. by rewrite IH.
Qed.

Lemma squeeze_spaces_id s :
  all_chars is_safe_char s = true -> squeeze_spaces false s = s.
Proof.
  induction s as [|c s IH]; cbn; [done|].
  intros [Hc Hs]%andb_prop. rewrite (safe_not_space _ Hc). by rewrite IH.
Qed.

Lemma strip_tags_id s :
  all_chars is_safe_char s = true -> strip_tags false s = s.
Proof.
  induction s as [|c s IH]; cbn; [done|].
  intros [Hc Hs]%andb_prop. rewrite (safe_not_open _ Hc). cbn. by rewrite IH.
Qed.

(** X1.  Whatever the text, [normalize_filename] returns a name made of
    ASCII letters, digits, [_] and [-] only: no separator, no dot, no
    white space, nothing outside ASCII. *)
Theorem normalize_filename_safe text :
  all_chars is_safe_char (normalize_filename text) = true.
Proof. unfold normalize_filename. apply keep_safe_all. Qed.

(** X2.  [normalize_filename] is idempotent: a name it produced is
    returned as it is. *)
Theorem normalize_filename_idempotent text :
  normalize_filename (normalize_filename text) = normalize_filename text.
Proof.
  pose proof (keep_safe_all (squeeze_spaces false (strip_tags false text))) as H.
  unfold normalize_filename at 1.
  fold (normalize_filename text) in H |- *.
  by rewrite (strip_tags_id _ H), (squeeze_spaces_id _ H), (keep_safe_id _ H).
Qed.

Lemma same_or_dropped_cases c c' :
  same_or_dropped c c' = true -> c = c' \/ dropped c = true /\ dropped c' = true.
Proof.
  unfold same_or_dropped. intros [H|[H1 H2]%andb_prop]%orb_prop.
  - left. by apply Ascii.eqb_eq.
  - by right.
Qed.

Lemma dropped_facts c :
  dropped c = true ->
  is_safe_char c = false /\ is_space c = false /\
  Ascii.eqb c "<"%char = false /\ Ascii.eqb c ">"%char = false /\
  Ascii.eqb c (ascii_of_N 10) = false.
Proof.
  unfold dropped.
  intros [[[H1 H2]%andb_prop H3]%andb_prop H4]%andb_prop.
  apply negb_true_iff in H1, H2, H3, H4. repeat split; try done.
  destruct (Ascii.eqb c (ascii_of_N 10)) eqn:E; [|done].
  apply Ascii.eqb_eq in E. subst c. vm_compute in H2. discriminate.
Qed.

Lemma alike_closes s s' : alike s s' = true -> closes s = closes s'.
Proof.
  revert s'. induction s as [|c s IH]; intros [|c' s']; cbn; try done.
  intros [Hc Hs]%andb_prop.
  destruct (same_or_dropped_cases _ _ Hc) as [->|[H1 H2]].
  - by rewrite (IH _ Hs).
  - destruct (dropped_facts _ H1) as (_ & _ & _ & E1 & E2).
    destruct (dropped_facts _ H2) as (_ & _ & _ & E3 & E4).
    cbn in E2, E4. rewrite E1, E2, E3, E4. auto.
Qed.

Lemma alike_strip_tags b s s' :
  alike s s' = true -> alike (strip_tags b s) (strip_tags b s') = true.
Proof.
  revert b s'. induction s as [|c s IH]; intros b [|c' s']; cbn; try done.
  intros [Hc Hs]%andb_prop. rewrite <- (alike_closes _ _ Hs).
  destruct (same_or_dropped_cases _ _ Hc) as [->|[H1 H2]].
  - destruct b.
    + destruct (Ascii.eqb c' ">"%char); auto.
    + destruct (Ascii.eqb c' "<"%char && closes s); [auto|].
      cbn. rewrite Hc. cbn. auto.
  - destruct (dropped_facts _ H1) as (_ & _ & -> & -> & _).
    destruct (dropped_facts _ H2) as (_ & _ & -> & -> & _).
    destruct b; [auto|]. cbn. rewrite Hc. cbn. auto.
Qed.

Lemma alike_squeeze_spaces b s s' :
  alike s s' = true ->
  alike (squeeze_spaces b s) (squeeze_spaces b s') = true.
Proof.
  revert b s'. induction s as [|c s IH]; intros b [|c' s']; cbn; try done.
  intros [Hc Hs]%andb_prop.
  destruct (same_or_dropped_cases _ _ Hc) as [->|[H1 H2]].
  - destruct (is_space c'); [destruct b|]; cbn; rewrite ?Hc; cbn; auto.
  - destruct (dropped_facts _ H1) as (_ & -> & _).
    destruct (dropped_facts _ H2) as (_ & -> & _).
    cbn. rewrite Hc. cbn. auto.
Qed.

Lemma alike_keep_safe s s' : alike s s' = true -> keep_safe s = keep_safe s'.
Proof.
  revert s'. induction s as [|c s IH]; intros [|c' s']; cbn; try done.
  intros [Hc Hs]%andb_prop.
  destruct (same_or_dropped_cases _ _ Hc) as [->|[H1 H2]].
  - by rewrite (IH _ Hs).
  - destruct (dropped_facts _ H1) as (-> & _).
    destruct (dropped_facts _ H2) as (-> & _). auto.
Qed.

(** X3.  [normalize_filename] is blind to the letters it drops: two
    texts that differ only in characters outside [a-zA-Z0-9_-] (white
    space and the brackets [<], [>] apart) get the same file name.  Two
    Danish words that differ in an [ae], [o-slash] or [a-ring] therefore
    share their audio file names. *)
Theorem normalize_filename_confuses_dropped_letters s s' :
  alike s s' = true -> normalize_filename s = normalize_filename s'.
Proof.
  intros H. unfold normalize_filename.
  by apply alike_keep_safe, alike_squeeze_spaces, alike_strip_tags.
Qed.

Lemma lstrip_starts_clean s : starts_clean (lstrip s) = true.
Proof.
  induction s as [|c s IH]; cbn; [done|].
  destruct (is_space c) eqn:E; [done|]. cbn. by rewrite E.
Qed.

Lemma lstrip_id s : starts_clean s = true -> lstrip s = s.
Proof. destruct s as [|c s]; cbn; [done|]. by intros ->%negb_true_iff. Qed.

Lemma rstrip_starts_clean s :
  starts_clean s = true -> starts_clean (rstrip s) = true.
Proof.
  destruct s as [|c s]; cbn; [done|]. intros H.
  destruct (rstrip s); cbn; [|done].
  apply negb_true_iff in H. rewrite H. cbn. by rewrite H.
Qed.

Lemma rstrip_cons c r :
  rstrip r <> "" -> rstrip (String c r) = String c (rstrip r).
Proof. cbn. by destruct (rstrip r). Qed.

Lemma rstrip_idempotent s : rstrip (rstrip s) = rstrip s.
Proof.
  induction s as [|c s IH]; [done|].
  destruct (rstrip s) as [|c' r'] eqn:E; cbn [rstrip]; rewrite E.
  - destruct (is_space c) eqn:Ec; cbn; [done|]. by rewrite Ec.
  - rewrite rstrip_cons; rewrite IH; [done|discriminate].
Qed.

Lemma strip_idempotent s : strip (strip s) = strip s.
Proof.
  unfold strip.
  rewrite (lstrip_id (rstrip (lstrip s))).
  - apply rstrip_idempotent.
  - apply rstrip_starts_clean, lstrip_starts_clean.
Qed.

Context {W : World}.

Lemma read_words_result s :
  (read_words s).1 =
  match words_lines env with
  | None => inl (FileNotFoundError (words_file config))
  | Some lines => inr (List.filter keep_line (List.map strip lines))
  end.
Proof.
  unfold read_words, _update_state, _log, bind, ret, modify.
  rewrite tick_eq. destruct (words_lines env); [|done].
  by rewrite tick_eq.
Qed.

(** X4.  [read_words] either raises [FileNotFoundError], exactly when
    the words file does not exist, or returns words that are all
    stripped of surrounding white space, not empty and not comments
    (no leading [#]): blank lines and comment lines never reach the
    pipeline. *)
Theorem read_words_clean s :
  match (read_words s).1 with
  | inr words => words_lines env <> None /\ Forall clean_word words
  | inl e => words_lines env = None /\ e = FileNotFoundError (words_file config)
  end.
Proof.
  rewrite read_words_result. destruct (words_lines env) as [lines|]; [|done].
  split; [done|].
  induction lines as [|l lines IH]; cbn; [constructor|].
  destruct (keep_line (strip l)) eqn:E; [|done].
  constructor; [|done]. unfold keep_line in E.
  apply andb_prop in E as [E1 E2]. apply negb_true_iff in E1, E2.
  repeat split; [|done|apply strip_idempotent].
  intros H. rewrite H in E1. discriminate.
Qed.

End FileNames.

Lemma normalize_filename_confuses_dropped_letters_witness :
  island <> stream /\ normalize_filename island = normalize_filename stream.
Proof.
  split; [discriminate|].
  apply (normalize_filename_confuses_dropped_letters island stream).
  vm_compute. reflexivity.
Defined.

(** * What a run leaves behind (core.py 543-617) *)

Section Kept.

Context {W : World}.

Lemma keeps_refl {A} (f : pstate -> A) s : keeps f s s.
Proof. done. Qed.

Lemma keeps_trans {A} (f : pstate -> A) s1 s2 s3 :
  keeps f s1 s2 -> keeps f s2 s3 -> keeps f s1 s3.
Proof. unfold keeps. congruence. Qed.

Lemma new_card_keeps {A} (f : pstate -> A) c :
  (forall v s, f (set_heap v s) = f s) -> Pres (keeps f) (new_card c).
Proof. intros H s. apply H. Qed.

Lemma wp_any {A} (m : M A) (Q : A -> pstate -> Prop) s :
  (forall a s', Q a s') -> wp m Q s.
Proof. intros H. apply H. Qed.

End Kept.

(** [keeps f] through a method. *)
Ltac keeps_leaf := unfold keeps; copy_cases; st_simpl; reflexivity.

Ltac keeps_tac known :=
  lazymatch goal with
  | |- Pres (keeps ?f) _ =>
      pres_with (keeps_refl f) (keeps_trans f)
        ltac:(first [by apply new_card_keeps | known]) keeps_leaf
  end.

Section RunOutcome.

Context {W : World}.

Lemma run_with_words s :
  usable_words <> [] ->
  run s =
  (run_prologue usable_words ;;;
   fl <- content_loop (Z.of_nat (length usable_words)) 1 usable_words [] ;;
   after_content fl ;;; ret None) s.
Proof.
  unfold usable_words. destruct (words_lines env) as [lines|] eqn:E; [|done].
  intros H. by apply (run_eq s lines).
Qed.






Lemma audio_loop_keeps_progress n i l :
  Pres (keeps (fun s => (total_words (stats s), processed_words (stats s))))
    (audio_loop n i l).
Proof.
  revert i. induction l as [|r l IH]; intros i; cbn [audio_loop].
  - keeps_tac fail.
  - keeps_tac ltac:(apply IH).
Qed.

Lemma after_content_keeps_progress fl :
  Pres (keeps (fun s => (total_words (stats s), processed_words (stats s))))
    (after_content fl).
Proof. keeps_tac ltac:(apply audio_loop_keeps_progress). Qed.

Lemma publish_and_finish_completes fl s :
  wp (publish_and_finish fl) (fun _ s' =>
    checkpoint_disk s' = None /\ (cancelled s' = false -> state s' = COMPLETED)) s.
Proof.
  unfold publish_and_finish. apply wp_bind, wp_any. intros b s1.
  apply wp_bind, wp_any. intros [] s2. wp_go.
  destruct (checkpoint_disk s2) eqn:E; wp_go.
  - split; [done|]. by intros [-> _]%orb_false_elim.
  - done.
Qed.





End RunOutcome.



(** * The stores across a restart (core.py 118-246) *)

Section Restart.

Context {W : World}.

Lemma init_spec ck meta fs :
  let g := init ck meta fs in
  files g = fs /\ metadata_disk g = meta /\ checkpoint_disk g = ck /\
  stats g = ProcessingStats_default /\
  audio_cache_metadata g
  = match meta with Some (Some m) => m | _ => ∅ end /\
  heap g = match ck with Some (Some m) => (map_to_list m).*2 | _ => [] end /\
  checkpoint g
  = match ck with
    | Some (Some m) =>
        list_to_map (zip (map_to_list m).*1 (seq 0 (length (map_to_list m))))
    | _ => ∅
    end.
Proof.
  cbv zeta. unfold init.
  match goal with |- context [(?body (blank ck meta fs)).2] =>
    change (wp body (fun _ g =>
      files g = fs /\ metadata_disk g = meta /\ checkpoint_disk g = ck /\
      stats g = ProcessingStats_default /\
      audio_cache_metadata g
      = match meta with Some (Some m) => m | _ => ∅ end /\
      heap g = match ck with Some (Some m) => (map_to_list m).*2 | _ => [] end /\
      checkpoint g
      = match ck with
        | Some (Some m) =>
            list_to_map (zip (map_to_list m).*1 (seq 0 (length (map_to_list m))))
        | _ => ∅
        end) (blank ck meta fs))
  end.
  unfold load_checkpoint, load_audio_cache_metadata, blank. wp_go.
  destruct ck as [[m|]|]; wp_go; destruct meta as [[m'|]|]; wp_go; done.
Qed.

Lemma snapshot_of_entries (pre : list FlashcardData)
    (l : list (string * FlashcardData)) :
  (fun r => default no_card ((pre ++ l.*2)%list !! r))
    <$> (list_to_map (zip l.*1 (seq (length pre) (length l))) : gmap string nat)
  = list_to_map l.
Proof.
  revert pre. induction l as [|[k v] l IH]; intros pre; cbn.
  - apply fmap_empty.
  - rewrite fmap_insert. f_equal.
    + by rewrite list_lookup_middle.
    + specialize (IH (pre ++ [v])%list). rewrite length_app in IH. cbn in IH.
      rewrite Nat.add_1_r, <- app_assoc in IH. exact IH.
Qed.

Lemma snapshot_of_init m meta fs :
  checkpoint_snapshot (init (Some (Some m)) meta fs) = m.
Proof.
  destruct (init_spec (Some (Some m)) meta fs) as (_ & _ & _ & _ & _ & Hh & Hc).
  unfold checkpoint_snapshot, card. rewrite Hh, Hc.
  pose proof (snapshot_of_entries [] (map_to_list m)) as E. cbn in E.
  rewrite E. apply list_to_map_to_list.
Qed.

(** X7.  Checkpoint round trip: the generator created on the file that
    [save_checkpoint] wrote holds, word for word, the records that were
    checkpointed, with all their fields. *)
Theorem checkpoint_round_trip s meta fs :
  checkpoint_snapshot (init (checkpoint_disk (save_checkpoint s).2) meta fs)
  = checkpoint_snapshot s.
Proof.
  assert (E : checkpoint_disk (save_checkpoint s).2
              = Some (Some (checkpoint_snapshot s))).
  { change (wp save_checkpoint (fun _ s' =>
      checkpoint_disk s' = Some (Some (checkpoint_snapshot s))) s).
    wp_go. done. }
  rewrite E. apply snapshot_of_init.
Qed.

Lemma init_in_sync ck meta fs : in_sync (init ck meta fs).
Proof.
  destruct (init_spec ck meta fs) as (_ & _ & Hd & _ & _ & Hh & Hc).
  unfold in_sync, disk_words. rewrite Hd, Hh, Hc.
  destruct ck as [[m|]|]; [|by split; [set_solver|intros ?? H; rewrite lookup_empty in H]..].
  split.
  - rewrite dom_list_to_map_L, fst_zip by (rewrite length_seq, length_fmap; lia).
    rewrite <- (list_to_map_to_list m) at 1. by rewrite dom_list_to_map_L.
  - intros w r H. apply elem_of_list_to_map_2 in H.
    apply elem_of_zip_r in H. apply elem_of_seq in H.
    rewrite length_fmap. lia.
Qed.

Lemma stays_saved_refl s : stays_saved s s.
Proof. by intros H. Qed.

Lemma stays_saved_trans s1 s2 s3 :
  stays_saved s1 s2 -> stays_saved s2 s3 -> stays_saved s1 s3.
Proof. unfold stays_saved. auto. Qed.

Lemma cache_audio_saved text src : Pres stays_saved (cache_audio text src).
Proof.
  intros s.
  change (wp (cache_audio text src) (fun _ s' => stays_saved s s') s).
  unfold cache_audio. wp_branch;
    unfold stays_saved, cache_saved, metadata_on_disk; cbn; done.
Qed.

Ltac saved_leaf :=
  unfold stays_saved, cache_saved, metadata_on_disk; copy_cases; st_simpl;
  done.

Ltac saved_tac known :=
  pres_with stays_saved_refl stays_saved_trans
    ltac:(first [apply cache_audio_saved | known]) saved_leaf.

Lemma new_card_saved c : Pres stays_saved (new_card c).
Proof.
  intros s. unfold new_card, stays_saved, cache_saved, metadata_on_disk.
  cbn. done.
Qed.

Lemma content_loop_saved n i ws fl : Pres stays_saved (content_loop n i ws fl).
Proof.
  revert i fl. induction ws as [|w ws IH]; intros i fl; cbn [content_loop].
  - saved_tac fail.
  - saved_tac ltac:(first [apply IH | apply new_card_saved]).
Qed.

Lemma audio_loop_saved n i l : Pres stays_saved (audio_loop n i l).
Proof.
  revert i. induction l as [|r l IH]; intros i; cbn [audio_loop].
  - saved_tac fail.
  - saved_tac ltac:(apply IH).
Qed.

Lemma run_saved : Pres stays_saved run.
Proof.
  saved_tac ltac:(first [apply content_loop_saved | apply audio_loop_saved]).
Qed.

(** X8.  The cache outlives the generator.  At the end of any run of a
    freshly created generator the metadata file is up to date: a new
    generator created on the files the run leaves holds the same cache
    metadata and sees the same files, and so answers every cache lookup
    as the old one would. *)
Theorem cache_survives_restart ck meta fs text :
  let s' := (run (init ck meta fs)).2 in
  audio_cache_metadata (restart s') = audio_cache_metadata s' /\
  (get_cached_audio text (restart s')).1 = (get_cached_audio text s').1.
Proof.
  cbv zeta.
  assert (H0 : cache_saved (init ck meta fs)).
  { destruct (init_spec ck meta fs) as (_ & Hm & _ & _ & Ha & _).
    unfold cache_saved, metadata_on_disk. by rewrite Hm, Ha. }
  apply run_saved in H0.
  set (s' := (run (init ck meta fs)).2) in *. unfold restart.
  destruct (init_spec (checkpoint_disk s') (metadata_disk s') (files s'))
    as (Hf & _ & _ & _ & Ha & _).
  assert (E : audio_cache_metadata
                (init (checkpoint_disk s') (metadata_disk s') (files s'))
              = audio_cache_metadata s') by (by rewrite Ha).
  split; [exact E|].
  unfold get_cached_audio, gets, exists_file. cbn [fst]. by rewrite E, Hf.
Qed.

End Restart.

(** * What the stages never do *)

Section Never.

Context {W : World}.

Ltac never p known :=
  emits_with p ltac:(first [apply new_card_emits | known]).

Lemma content_loop_no_audio n i ws fl :
  Pres (emits no_audio_event) (content_loop n i ws fl).
Proof.
  revert i fl. induction ws as [|w ws IH]; intros i fl; cbn [content_loop].
  - never no_audio_event fail.
  - never no_audio_event ltac:(apply IH).
Qed.

Lemma after_content_no_audio fl :
  test_mode config = true -> Pres (emits no_audio_event) (after_content fl).
Proof.
  intros H. unfold after_content.
  destruct (test_mode config); [|discriminate].
  never no_audio_event fail.
Qed.

Lemma content_loop_keeps_audio n i ws fl :
  Pres (keeps (fun s => (estimated_time_remaining (stats s),
                         audio_cache_metadata s)))
    (content_loop n i ws fl).
Proof.
  revert i fl. induction ws as [|w ws IH]; intros i fl; cbn [content_loop].
  - keeps_tac fail.
  - keeps_tac ltac:(apply IH).
Qed.

Lemma after_content_keeps_audio fl :
  test_mode config = true ->
  Pres (keeps (fun s => (estimated_time_remaining (stats s),
                         audio_cache_metadata s)))
    (after_content fl).
Proof.
  intros H. unfold after_content.
  destruct (test_mode config); [|discriminate].
  keeps_tac fail.
Qed.

(** X9.  In test mode a run does no audio work at all: no synthesis
    call, no wait, no traffic with the cache, never the state
    [GENERATING_AUDIO]; the time estimate and the cache metadata are as
    they were before the run. *)
Theorem test_mode_skips_audio s :
  test_mode config = true ->
  let s' := (run s).2 in
  forallb no_audio_event (new_events s s') = true /\
  estimated_time_remaining (stats s') = estimated_time_remaining (stats s) /\
  audio_cache_metadata s' = audio_cache_metadata s.
Proof.
  intros H s'. subst s'. split.
  - apply emits_new_events. generalize s.
    change (Pres (emits no_audio_event) run).
    never no_audio_event
      ltac:(first [apply content_loop_no_audio
                  | apply (after_content_no_audio _ H)]).
  - assert (K : keeps (fun s => (estimated_time_remaining (stats s),
                                 audio_cache_metadata s)) s (run s).2).
    { generalize s.
      change (Pres (keeps (fun s => (estimated_time_remaining (stats s),
                                     audio_cache_metadata s))) run).
      keeps_tac ltac:(first [apply content_loop_keeps_audio
                            | apply (after_content_keeps_audio _ H)]). }
    unfold keeps in K. by injection K.
Qed.

Lemma send_step_no_reverse r :
  generate_reverse_cards config = false ->
  Pres (emits no_reverse_note) (send_step r).
Proof.
  intros H. unfold send_step.
  destruct (generate_reverse_cards config); [discriminate|].
  never no_reverse_note fail.
Qed.

Lemma audio_loop_no_reverse n i l :
  Pres (emits no_reverse_note) (audio_loop n i l).
Proof.
  revert i. induction l as [|r l IH]; intros i; cbn [audio_loop].
  - never no_reverse_note fail.
  - never no_reverse_note ltac:(apply IH).
Qed.

Lemma content_loop_no_reverse n i ws fl :
  Pres (emits no_reverse_note) (content_loop n i ws fl).
Proof.
  revert i fl. induction ws as [|w ws IH]; intros i fl; cbn [content_loop].
  - never no_reverse_note fail.
  - never no_reverse_note ltac:(apply IH).
Qed.

(** X10.  Reverse cards are made on request only: with
    [generate_reverse_cards] off, no run ever submits a note of the
    reverse model. *)
Theorem reverse_notes_only_on_request s :
  generate_reverse_cards config = false ->
  forallb no_reverse_note (new_events s (run s).2) = true.
Proof.
  intros H. apply emits_new_events. generalize s.
  change (Pres (emits no_reverse_note) run).
  never no_reverse_note
    ltac:(first [apply content_loop_no_reverse | apply audio_loop_no_reverse
                | apply (send_step_no_reverse _ H)]).
Qed.

End Never.

Lemma test_mode_skips_audio_witness :
  let s := init (W := test_mode_world) None None ∅ in
  forallb no_audio_event (new_events s (run s).2) = true.
Proof.
  intros s.
  destruct (test_mode_skips_audio (W := test_mode_world) s) as [H _];
    [reflexivity|exact H].
Defined.

Lemma reverse_notes_only_on_request_witness :
  let s := init (W := forward_only_world) None None ∅ in
  forallb no_reverse_note (new_events s (run s).2) = true.
Proof.
  intros s.
  apply (reverse_notes_only_on_request (W := forward_only_world) s).
  reflexivity.
Defined.

(** * What the stages leave untouched *)

Section Frames.

Context {W : World}.

Lemma fmap_alter_same {A B} (g : A -> B) (f : A -> A) i (l : list A) :
  (forall x, g (f x) = g x) -> g <$> alter f i l = g <$> l.
Proof.
  intros H. revert i. induction l as [|x l IH]; intros [|i]; cbn; [done..| |].
  - by rewrite H.
  - f_equal. apply IH.
Qed.

Lemma texts_grow_refl s : texts_grow s s.
Proof. unfold texts_grow. reflexivity. Qed.

Lemma texts_grow_trans s1 s2 s3 :
  texts_grow s1 s2 -> texts_grow s2 s3 -> texts_grow s1 s3.
Proof. unfold texts_grow. intros H1 H2. by etrans. Qed.

Lemma new_card_texts c : Pres texts_grow (new_card c).
Proof.
  intros s. unfold texts_grow, new_card. cbn. rewrite fmap_app.
  by apply prefix_app_r.
Qed.

Ltac texts_leaf :=
  unfold texts_grow; copy_cases; st_simpl;
  rewrite ?fmap_alter_same by done; reflexivity.

Ltac texts_tac known :=
  pres_with texts_grow_refl texts_grow_trans
    ltac:(first [apply new_card_texts | known]) texts_leaf.

Lemma content_loop_texts n i ws fl : Pres texts_grow (content_loop n i ws fl).
Proof.
  revert i fl. induction ws as [|w ws IH]; intros i fl; cbn [content_loop].
  - texts_tac fail.
  - texts_tac ltac:(apply IH).
Qed.

Lemma audio_loop_texts n i l : Pres texts_grow (audio_loop n i l).
Proof.
  revert i. induction l as [|r l IH]; intros i; cbn [audio_loop].
  - texts_tac fail.
  - texts_tac ltac:(apply IH).
Qed.

(** X11.  Records are never deleted and never rewritten: over a whole
    run every record that existed at the start is still there at the
    same place, with the same word, translation and sentences.  The
    later stages only add audio references and errors. *)
Theorem run_keeps_texts s : texts_grow s (run s).2.
Proof.
  generalize s. change (Pres texts_grow run).
  texts_tac ltac:(first [apply content_loop_texts | apply audio_loop_texts]).
Qed.

Ltac errors_leaf :=
  unfold keeps, records_but_errors, stores; copy_cases; st_simpl;
  rewrite ?fmap_alter_same by done; reflexivity.

(** X12.  Sending notes changes nothing but error fields: after
    [send_to_anki] every record is as before up to its [error], and the
    audio files, the checkpoint, the cache and the counters are
    untouched. *)
Theorem send_to_anki_only_sets_errors flashcards s :
  let s' := (send_to_anki flashcards s).2 in
  records_but_errors s' = records_but_errors s /\
  files s' = files s /\ stores s' = stores s.
Proof.
  cbv zeta.
  assert (K : keeps (fun s => (records_but_errors s, files s, stores s))
                s (send_to_anki flashcards s).2).
  { generalize s.
    match goal with |- forall s, keeps ?f s _ =>
      change (Pres (keeps f) (send_to_anki flashcards));
      pres_with (keeps_refl f) (keeps_trans f) fail errors_leaf
    end. }
  unfold keeps in K. injection K. intros. unfold stores.
  repeat split; congruence.
Qed.







Lemma audio_loop_keeps_checkpoint n i l :
  Pres (keeps (fun s => (checkpoint s, checkpoint_disk s,
                         total_words (stats s), processed_words (stats s))))
    (audio_loop n i l).
Proof.
  revert i. induction l as [|r l IH]; intros i; cbn [audio_loop].
  - keeps_tac fail.
  - keeps_tac ltac:(apply IH).
Qed.

(** X14.  The audio stage never checkpoints: the audio loop of [run]
    leaves the checkpoint mapping and the checkpoint file as they were,
    and the progress counters too.  The audio references and the errors
    it sets are therefore not on disk when a run stops before
    completion. *)
Theorem audio_loop_never_checkpoints n i l s :
  let s' := (audio_loop n i l s).2 in
  checkpoint s' = checkpoint s /\ checkpoint_disk s' = checkpoint_disk s /\
  total_words (stats s') = total_words (stats s) /\
  processed_words (stats s') = processed_words (stats s).
Proof.
  cbv zeta. pose proof (audio_loop_keeps_checkpoint n i l s) as K.
  unfold keeps in K. injection K. intros. repeat split; assumption.
Qed.

End Frames.

(** * A cancellation that comes too late (core.py 597-613) *)

Section LateCancel.

Context {W : World}.

Lemma idle_refl s : idle s s.
Proof. intros H. repeat split; [done|apply emits_refl]. Qed.

Lemma idle_trans s1 s2 s3 : idle s1 s2 -> idle s2 s3 -> idle s1 s3.
Proof.
  intros H1 H2 Hc. destruct (H1 Hc) as (C1 & A1 & F1 & E1).
  destruct (H2 C1) as (C2 & A2 & F2 & E2).
  split; [done|]. split; [congruence|]. split; [congruence|].
  by eapply emits_trans.
Qed.

(** A guarded step does nothing once the cancellation has been seen. *)
Lemma guard_idle {A} (a : A) (m : M A) :
  Pres idle (c <- poll_cancelled ;; if c : bool then ret a else m).
Proof.
  intros s Hc. unfold bind. rewrite poll_eq, Hc, orb_true_r.
  unfold ret. cbn [snd]. split; [cbn; by rewrite Hc, orb_true_r|].
  split; [done|]. split; [done|]. emits_leaf fail.
Qed.

Ltac idle_leaf :=
  let Hc := fresh "Hc" in
  intros Hc; copy_cases; st_simpl;
  (split; [by rewrite ?Hc, ?orb_true_r|]);
  (split; [reflexivity|]); (split; [reflexivity|]);
  emits_leaf fail.

Ltac idle_tac :=
  pres_with idle_refl idle_trans ltac:(apply guard_idle) idle_leaf.

Lemma publish_after_announcement_idle fl :
  Pres idle (publish_after_announcement fl).
Proof. unfold publish_after_announcement. idle_tac. Qed.

Lemma publish_and_finish_eq fl s :
  publish_and_finish fl s =
  (_update_state COPYING_AUDIO MsgCopying ;;; publish_after_announcement fl) s.
Proof.
  unfold publish_and_finish, copy_audio_to_anki, publish_after_announcement.
  unfold bind.
  destruct (_update_state COPYING_AUDIO MsgCopying s) as [[] s0].
  destruct (get_anki_media_dir s0) as [d s1].
  destruct (negb (dir_exists env d)).
  - by destruct (_log (MsgMediaDirNotFound d) s1) as [[] s2].
  - destruct (_log (MsgMediaDir d) s1) as [[] s2].
    by destruct (for_each (copy_step d) fl s2) as [[] s3].
Qed.

(** X15.  A cancellation that arrives when publication has just been
    entered (after the last test of [self.cancelled] in [run]) stops
    the work but not the bookkeeping: nothing is staged and no note is
    submitted, no record and no file changes, yet the pipeline goes on
    to announce [COMPLETED] and removes the checkpoint file. *)
Theorem late_cancellation_still_completes fl s :
  cancel_req env (clock s) = true ->
  let s' := (publish_and_finish fl s).2 in
  cancelled s' = true /\
  last (transitions (new_events s s')) = Some COMPLETED /\
  checkpoint_disk s' = None /\
  forallb no_publish_call (new_events s s') = true /\
  heap s' = heap s /\ files s' = files s.
Proof.
  intros Hq s'.
  pose proof (publish_and_finish_moves fl s) as Hm.
  apply moves_new_events in Hm. fold s' in Hm.
  pose proof (publish_and_finish_completes fl s) as [Hd _].
  fold s' in Hd.
  assert (Hi : cancelled s' = true /\ heap s' = heap s /\ files s' = files s /\
               emits no_publish_call s s').
  { subst s'. rewrite publish_and_finish_eq. unfold bind.
    assert (H0 : wp (_update_state COPYING_AUDIO MsgCopying) (fun _ s0 =>
              cancelled s0 = true /\ heap s0 = heap s /\ files s0 = files s /\
              emits no_publish_call s s0) s).
    { wp_go. rewrite Hq. repeat split. emits_leaf fail. }
    unfold wp in H0.
    destruct (_update_state COPYING_AUDIO MsgCopying s) as [[] s0].
    cbn [fst snd] in H0. cbv beta iota. destruct H0 as (C0 & A0 & F0 & E0).
    destruct (publish_after_announcement_idle fl s0 C0) as (C1 & A1 & F1 & E1).
    split; [done|]. split; [congruence|]. split; [congruence|].
    by eapply emits_trans. }
  destruct Hi as (C & A & F & E).
  split; [done|]. split.
  { rewrite Hm. destruct (dir_exists env (resolved_media_dir s)); reflexivity. }
  split; [done|]. split; [by apply emits_new_events|]. done.
Qed.

End LateCancel.

Lemma late_cancellation_still_completes_witness :
  let s := one_card_state (W := cancel_at_once_world) hund in
  checkpoint_disk (publish_and_finish [0%nat] s).2 = None.
Proof.
  intros s.
  destruct (late_cancellation_still_completes (W := cancel_at_once_world)
              [0%nat] s) as (_ & _ & H & _); [reflexivity|exact H].
Defined.

(** The same at the scale of a run: the three sample words, [cancel()]
    arriving as publication starts. *)
Example cancelled_as_publication_starts :
  let s := init (W := late_cancel_world) None None ∅ in
  let s' := (run s).2 in
  cancelled s' = true /\ state s' = COMPLETED /\
  checkpoint_disk s' = None /\
  List.filter is_add_note (new_events s s') = [].
Proof. vm_compute. repeat split; reflexivity. Qed.

(** * The audio stage, record by record (core.py 321-417) *)

Section AudioOutcome.

Context {W : World}.

Ltac tts_norm :=
  erewrite new_events_app by (cbn; rewrite <- ?app_assoc; reflexivity);
  unfold tts_calls;
  repeat first
    [ rewrite List.filter_app
    | rewrite filter_cancel_piece by reflexivity
    | rewrite filter_callback_events by reflexivity ];
  cbn [List.filter app is_tts hd_error].

(** X16.  Sentence audio is always synthesised afresh: whatever the
    cache holds, [generate_sentence_audio] calls the speech backend for
    the sentence, and it neither reads nor writes the cache. *)
Theorem sentence_audio_is_never_cached r w sentence sf s :
  let s' := (generate_sentence_audio r w sentence sf s).2 in
  hd_error (tts_calls (new_events s s'))
  = Some (EvTts r SentenceAudio sentence sf) /\
  forallb no_cache_event (new_events s s') = true /\
  audio_cache_metadata s' = audio_cache_metadata s /\
  metadata_disk s' = metadata_disk s.
Proof.
  cbv zeta. split; [|split].
  - change (wp (generate_sentence_audio r w sentence sf) (fun _ s' =>
      hd_error (tts_calls (new_events s s'))
      = Some (EvTts r SentenceAudio sentence sf)) s).
    unfold generate_sentence_audio, tts_generate. wp_branch; tts_norm;
      reflexivity.
  - apply emits_new_events. generalize s.
    change (Pres (emits no_cache_event)
              (generate_sentence_audio r w sentence sf)).
    emits_with no_cache_event fail.
  - assert (K2 : Pres (keeps (fun s => (audio_cache_metadata s, metadata_disk s)))
                   (generate_sentence_audio r w sentence sf))
      by keeps_tac fail.
    specialize (K2 s). unfold keeps in K2. by injection K2.
Qed.

Lemma word_audio_outcome r fc w wf s :
  heap s !! r = Some fc ->
  wp (generate_word_audio r w wf) (fun ok s' =>
    if ok : bool
    then heap s' !! r = Some (set_audio_word_file (Some (wf ++ ".wav")) fc)
    else exists msg, heap s' !! r = Some (set_error (Some msg) fc) /\
                     truthy (Some msg) = true) s.
Proof.
  intros Hr.
  unfold generate_word_audio, tts_generate, get_cached_audio, cache_audio.
  wp_branch.
  all: rewrite ?list_lookup_alter_eq, ?Hr; cbn [fmap option_fmap option_map].
  all: try reflexivity.
  all: eexists; split; reflexivity.
Qed.

Lemma sentence_audio_outcome r fc w sentence sf s :
  heap s !! r = Some fc ->
  wp (generate_sentence_audio r w sentence sf) (fun ok s' =>
    if ok : bool
    then heap s' !! r = Some (set_audio_sentence_file (Some (sf ++ ".wav")) fc)
    else exists msg, heap s' !! r = Some (set_error (Some msg) fc) /\
                     truthy (Some msg) = true) s.
Proof.
  intros Hr. unfold generate_sentence_audio, tts_generate. wp_branch.
  all: rewrite ?list_lookup_alter_eq, ?Hr; cbn [fmap option_fmap option_map].
  all: try reflexivity.
  all: eexists; split; reflexivity.
Qed.

(** X17.  What [generate_audio_for_flashcard] reports is what it did to
    the record.  [True]: the record had no error and now carries both
    audio references, named after [normalize_filename] of its word, and
    nothing else of it changed.  [False]: either a cancellation has
    been seen, or the record carries an error. *)
Theorem audio_result_matches_record r fc s :
  heap s !! r = Some fc ->
  let res := generate_audio_for_flashcard r s in
  let name := normalize_filename (word fc) in
  if res.1
  then truthy (error fc) = false /\
       heap res.2 !! r
       = Some (set_audio_sentence_file (Some ((name ++ "_sentence") ++ ".wav"))
                 (set_audio_word_file (Some (name ++ ".wav")) fc))
  else cancelled res.2 = true \/ truthy (error (card r res.2)) = true.
Proof.
  intros Hr. cbv zeta.
  change (wp (generate_audio_for_flashcard r) (fun ok s' =>
    if ok
    then truthy (error fc) = false /\
         heap s' !! r
         = Some (set_audio_sentence_file
                   (Some ((normalize_filename (word fc) ++ "_sentence") ++ ".wav"))
                   (set_audio_word_file
                      (Some (normalize_filename (word fc) ++ ".wav")) fc))
    else cancelled s' = true \/ truthy (error (card r s')) = true) s).
  assert (Hc : forall fc0 s0, heap s0 !! r = Some fc0 -> card r s0 = fc0)
    by (intros fc0 s0 H; unfold card; by rewrite H).
  unfold generate_audio_for_flashcard. wp_go.
  destruct (cancel_req env (clock s) || cancelled s) eqn:E0; wp_go.
  { by left. }
  rewrite !(Hc fc) by exact Hr.
  destruct (truthy (error fc)) eqn:Ee; wp_go.
  { right. by rewrite (Hc fc) by exact Hr. }
  eapply wp_mono; [apply (word_audio_outcome r fc); exact Hr|].
  cbv beta. intros [] s1 H1; cbn [negb]; wp_go.
  2:{ right. destruct H1 as (msg & H1 & Ht). by rewrite (Hc _ _ H1). }
  destruct (cancel_req env (clock s1) || cancelled s1) eqn:E1; wp_go.
  { by left. }
  rewrite !(Hc (set_audio_word_file _ fc)) by exact H1. cbn [word example_sentence_da set_audio_word_file].
  eapply wp_mono;
    [eapply sentence_audio_outcome; exact H1|].
  cbv beta. intros [] s2 H2.
  - split; [done|]. exact H2.
  - right. destruct H2 as (msg & H2 & Ht). by rewrite (Hc _ _ H2).
Qed.

End AudioOutcome.

Lemma audio_result_matches_record_witness :
  let res :=
    generate_audio_for_flashcard 0 (one_card_state (W := sample_world) hund) in
  if res.1
  then truthy (error hund) = false /\
       heap res.2 !! 0%nat
       = Some (set_audio_sentence_file (Some "en_hund_sentence.wav")
                 (set_audio_word_file (Some "en_hund.wav") hund))
  else cancelled res.2 = true \/ truthy (error (card 0 res.2)) = true.
Proof.
  apply (audio_result_matches_record (W := sample_world) 0%nat hund).
  reflexivity.
Defined.

(** * Staging one audio file (core.py 454-480) *)

Section Staging.

Context {W : World}.

Lemma exists_file_lookup p s :
  exists_file p s = match files s !! p with Some _ => true | None => false end.
Proof.
  unfold exists_file. destruct (files s !! p).
  - by rewrite bool_decide_eq_true_2.
  - rewrite bool_decide_eq_false_2; [done|]. by intros [? ?].
Qed.

(** X18.  Staging one audio file of a record.  If the file is in the
    audio directory under its name, or failing that under its name
    with the extension doubled, Anki's media directory receives its
    content under the plain name; if it is under neither, nothing is
    copied, no call is made, and nothing is reported on the record.
    In all cases the records are as before. *)
Theorem copy_one_file_stages_the_audio r d f s :
  let s' := (copy_one_file r d f s).2 in
  let source := path_join (audio_dir config) f in
  heap s' = heap s /\
  match files s !! source, files s !! (source ++ ".wav") with
  | Some a, _ | None, Some a => files s' = <[path_join d f := a]> (files s)
  | None, None => files s' = files s /\ calls (new_events s s') = []
  end.
Proof.
  cbv zeta.
  change (wp (copy_one_file r d f) (fun _ s' =>
    heap s' = heap s /\
    match files s !! path_join (audio_dir config) f,
          files s !! (path_join (audio_dir config) f ++ ".wav") with
    | Some a, _ | None, Some a => files s' = <[path_join d f := a]> (files s)
    | None, None => files s' = files s /\ calls (new_events s s') = []
    end) s).
  unfold copy_one_file. wp_go. rewrite !exists_file_lookup. cbn [files].
  destruct (files s !! path_join (audio_dir config) f) as [a|] eqn:E1.
  - rewrite E1. wp_go. rewrite E1. done.
  - destruct (files s !! (path_join (audio_dir config) f ++ ".wav"))
      as [a|] eqn:E2.
    + rewrite E2. wp_go. rewrite E2. done.
    + rewrite E1. wp_go. split; [done|]. split; [done|].
      by rewrite (new_events_app s s []) by (by rewrite app_nil_r).
Qed.

End Staging.

(** * One word of the content loop (core.py 562-575) *)

Section ContentOutcome.

Context {W : World}.

(** X19.  Only successes are checkpointed.  For a word that is not in
    the checkpoint, the content loop appends one new record.  If the
    backend answered with content, the record holds it, with no audio
    and no error, the word is checkpointed under it and the checkpoint
    file is rewritten at once, before the next word; the failure count
    is unchanged.  If the backend failed (unparsable answer or any
    other exception), the record carries the word and a non-empty
    error, the failure count goes up by one, and neither the
    checkpoint nor its file is touched, so that a later run asks for
    the word again. *)
Theorem content_step_checkpoints_successes_only n i w fl s :
  checkpoint s !! w = None ->
  let res := content_step n i w fl s in
  let s' := res.2 in
  let r := length (heap s) in
  res.1 = (fl ++ [r])%list /\
  match content_answer s w with
  | ContentOk w' tr da en =>
      heap s' = (heap s ++ [mkCard w' tr da en None None None])%list /\
      checkpoint s' = <[w := r]> (checkpoint s) /\
      checkpoint_disk s' = Some (Some (checkpoint_snapshot s')) /\
      failed_words (stats s') = failed_words (stats s)
  | _ =>
      (exists e, heap s' = (heap s ++ [error_card w e])%list /\
                 truthy (Some e) = true) /\
      checkpoint s' = checkpoint s /\
      checkpoint_disk s' = checkpoint_disk s /\
      failed_words (stats s') = failed_words (stats s) + 1
  end.
Proof.
  intros Hck. cbv zeta.
  change (wp (content_step n i w fl) (fun fl' s' =>
    fl' = (fl ++ [length (heap s)])%list /\
    match content_answer s w with
    | ContentOk w' tr da en =>
        heap s' = (heap s ++ [mkCard w' tr da en None None None])%list /\
        checkpoint s' = <[w := length (heap s)]> (checkpoint s) /\
        checkpoint_disk s' = Some (Some (checkpoint_snapshot s')) /\
        failed_words (stats s') = failed_words (stats s)
    | _ =>
        (exists e, heap s' = (heap s ++ [error_card w e])%list /\
                   truthy (Some e) = true) /\
        checkpoint s' = checkpoint s /\
        checkpoint_disk s' = checkpoint_disk s /\
        failed_words (stats s') = failed_words (stats s) + 1
    end) s).
  unfold content_step, generate_content_for_word, content_answer. wp_go.
  rewrite Hck. wp_go.
  destruct (gemini env (S (S (clock s))) w) as [w' tr da en| |e]; wp_go.
  all: unfold card; cbn; rewrite lookup_new; cbn -[truthy].
  all: rewrite ?truthy_prefixed; cbn; wp_go.
  - done.
  - split; [done|]. split; [|done]. eexists. split; reflexivity.
  - split; [done|]. split; [|done]. eexists. split; reflexivity.
Qed.

End ContentOutcome.

Lemma content_step_checkpoints_successes_only_witness :
  (content_step 3 1 "hund" [] (init (W := sample_world) None None ∅)).1
  = [0%nat].
Proof.
  destruct (content_step_checkpoints_successes_only (W := sample_world)
              3 1 "hund" [] (init None None ∅)) as [H _];
    [reflexivity|exact H].
Defined.

(** * The counters (core.py 571-575, 593-595) *)

Section Counters.

Context {W : World}.

Lemma errors_stay_refl s : errors_stay s s.
Proof. by intros r H. Qed.

Lemma errors_stay_trans s1 s2 s3 :
  errors_stay s1 s2 -> errors_stay s2 s3 -> errors_stay s1 s3.
Proof. intros H1 H2 r H. by apply H2, H1. Qed.

Lemma count_successful_nonneg l s : 0 <= count_successful l s.
Proof. unfold count_successful. lia. Qed.

Lemma count_successful_le l s : count_successful l s <= Z.of_nat (length l).
Proof.
  unfold count_successful. apply inj_le. apply List.filter_length_le.
Qed.

Lemma count_successful_cons r l s :
  count_successful (r :: l) s
  = (if truthy (error (card r s)) then 0 else 1) + count_successful l s.
Proof.
  unfold count_successful. cbn [List.filter].
  destruct (truthy (error (card r s))); cbn [negb length]; lia.
Qed.

Lemma count_successful_app l1 l2 s :
  count_successful (l1 ++ l2) s = count_successful l1 s + count_successful l2 s.
Proof.
  unfold count_successful. rewrite List.filter_app, length_app. lia.
Qed.

Lemma count_successful_mono l s s' :
  errors_stay s s' -> count_successful l s' <= count_successful l s.
Proof.
  intros H. induction l as [|r l IH]; [done|].
  rewrite !count_successful_cons. specialize (H r).
  destruct (truthy (error (card r s))).
  - rewrite H by done. lia.
  - destruct (truthy (error (card r s'))); lia.
Qed.

Lemma count_successful_stable l s s' :
  heap_grows s s' -> Forall (fun r => (r < length (heap s))%nat) l ->
  count_successful l s' = count_successful l s.
Proof.
  intros Hg. induction 1 as [|r l Hr _ IH]; [done|].
  rewrite !count_successful_cons, IH. by rewrite (card_stable r s s' Hg Hr).
Qed.

Lemma content_step_counts n i w fl s :
  wp (content_step n i w fl) (fun fl' s1 =>
    exists r, fl' = (fl ++ [r])%list /\
      processed_words (stats s1) = i /\
      total_words (stats s1) = total_words (stats s) /\
      failed_words (stats s1)
      = failed_words (stats s) + (if truthy (error (card r s1)) then 1 else 0)) s.
Proof.
  unfold content_step, generate_content_for_word. wp_go.
  destruct (checkpoint s !! w) as [r|] eqn:Hck; wp_go.
  - unfold card. cbn. fold (card r s).
    destruct (truthy (error (card r s))) eqn:He; cbn; wp_go.
    all: exists r; split; [done|]; split; [done|]; split; [done|].
    all: unfold card; cbn; fold (card r s); rewrite He; lia.
  - destruct (gemini env (S (S (clock s))) w) as [w' tr da en| |e]; wp_go.
    all: unfold card; cbn; rewrite lookup_new; cbn -[truthy].
    all: rewrite ?truthy_prefixed; cbn; wp_go.
    all: exists (length (heap s)); split; [done|]; split; [done|];
      split; [done|].
    all: unfold card; cbn; rewrite lookup_new; cbn -[truthy].
    all: rewrite ?truthy_prefixed; cbn; lia.
Qed.

Lemma content_loop_counts n i ws fl s :
  in_sync s ->
  exists new,
    (content_loop n i ws fl s).1 = (fl ++ new)%list /\
    let sk := (content_loop n i ws fl s).2 in
    in_sync sk /\ heap_grows s sk /\
    Forall (fun r => (r < length (heap sk))%nat) new /\
    total_words (stats sk) = total_words (stats s) /\
    failed_words (stats sk) + count_successful new sk
    = failed_words (stats s) + Z.of_nat (length new) /\
    match new with
    | [] => processed_words (stats sk) = processed_words (stats s)
    | _ => processed_words (stats sk) = i + Z.of_nat (length new) - 1
    end /\
    (length new <= length ws)%nat.
Proof.
  revert i fl s. induction ws as [|w ws IH]; intros i fl s Hs.
  - exists []. cbn [content_loop]. unfold ret. cbn [fst snd].
    rewrite app_nil_r.
    split; [done|]. split; [exact Hs|]. split; [apply heap_grows_refl|].
    split; [constructor|]. split; [done|].
    split; [unfold count_successful; cbn; lia|]. split; [done|cbn; lia].
  - rewrite content_loop_cons.
    destruct (cancel_req env (clock s) || cancelled s).
    + exists []. cbn [fst snd]. rewrite app_nil_r.
      split; [done|]. split; [exact (in_sync_tick s Hs)|].
      split; [by exists []; rewrite app_nil_r|].
      split; [constructor|]. split; [done|].
      split; [unfold count_successful; cbn; lia|]. split; [done|cbn; lia].
    + pose proof (in_sync_tick s Hs) as Ht.
      destruct (content_step_spec n i w fl (tick_state s) Ht)
        as (r1 & Hfl & Hr1 & Hg1 & Hs1 & _).
      pose proof (content_step_counts n i w fl (tick_state s)) as Hc.
      unfold wp in Hc.
      destruct (content_step n i w fl (tick_state s)) as [fl1 s1].
      cbn [fst snd] in *. subst fl1.
      destruct Hc as (r & Er & Hp & Htot & Hf).
      change (stats (tick_state s)) with (stats s) in *.
      apply app_inj_tail in Er as [_ <-].
      destruct (IH (i + 1) (fl ++ [r1])%list s1 Hs1)
        as (new & Hfl' & Hsk & Hgk & Hnew & Htk & Hfk & Hpk & Hlen).
      destruct (content_loop n (i + 1) ws (fl ++ [r1]) s1) as [fl' sk].
      cbn [fst snd] in *. subst fl'.
      exists (r1 :: new). split; [by rewrite <- app_assoc|].
      split; [done|].
      split; [eapply heap_grows_trans; [|exact Hgk]; exact Hg1|].
      split.
      { constructor; [|done]. apply heap_grows_length in Hgk. lia. }
      split; [by rewrite Htk, Htot|].
      split.
      { rewrite count_successful_cons, (card_stable r1 s1 sk Hgk Hr1).
        cbn [length]. destruct (truthy (error (card r1 s1))); lia. }
      split; [|cbn [length]; lia].
      destruct new as [|r2 new]; cbn [length] in *; lia.
Qed.

Ltac stay_leaf :=
  let r0 := fresh "r0" in
  unfold errors_stay, card; copy_cases; st_simpl; intros r0;
  try match goal with
      | |- context [alter _ ?r _ !! r0] =>
          destruct (decide (r0 = r)) as [->|?];
          [rewrite list_lookup_alter_eq
          |rewrite list_lookup_alter_ne by done]
      end;
  try match goal with
      | |- context [?h !! ?k] => destruct (h !! k)
      end;
  cbn; done.

Lemma audio_errors_stay r : Pres errors_stay (generate_audio_for_flashcard r).
Proof. pres_with errors_stay_refl errors_stay_trans fail stay_leaf. Qed.

Lemma audio_keeps_failed r :
  Pres (keeps (fun s => failed_words (stats s))) (generate_audio_for_flashcard r).
Proof. keeps_tac fail. Qed.

Lemma audio_step_bound n i r s :
  let s' := (audio_step n i r s).2 in
  errors_stay s s' /\
  failed_words (stats s) <= failed_words (stats s')
  <= failed_words (stats s) + 1.
Proof.
  cbv zeta. unfold audio_step, add_failed, bind, modify, ret.
  match goal with |- context [generate_audio_for_flashcard r ?s0] =>
    pose proof (audio_errors_stay r s0) as He;
    pose proof (audio_keeps_failed r s0) as Hk;
    destruct (generate_audio_for_flashcard r s0) as [ok s1]
  end.
  unfold keeps in Hk. cbn in Hk. cbn [snd] in He.
  destruct ok; cbn; (split; [exact He|lia]).
Qed.

Lemma audio_loop_cons n i r l s :
  audio_loop n i (r :: l) s =
  if cancel_req env (clock s) || cancelled s then (tt, tick_state s)
  else if truthy (error (card r (tick_state s)))
       then audio_loop n (i + 1) l (tick_state s)
       else audio_loop n (i + 1) l (audio_step n i r (tick_state s)).2.
Proof.
  cbn [audio_loop]. unfold bind at 1. rewrite poll_eq.
  destruct (cancel_req env (clock s) || cancelled s); [done|].
  unfold bind at 1. unfold get_card at 1, gets at 1. unfold bind at 1.
  destruct (truthy (error (card r (tick_state s)))); [done|].
  by destruct (audio_step n i r (tick_state s)) as [[] s1].
Qed.

Lemma audio_loop_bound n i l s :
  let s' := (audio_loop n i l s).2 in
  failed_words (stats s) <= failed_words (stats s')
  <= failed_words (stats s) + count_successful l s.
Proof.
  cbv zeta. revert i s. induction l as [|r l IH]; intros i s.
  - cbn [audio_loop]. unfold ret, count_successful. cbn. lia.
  - rewrite audio_loop_cons, count_successful_cons.
    pose proof (count_successful_nonneg l s) as H0.
    assert (Hcard : forall r0, card r0 (tick_state s) = card r0 s) by done.
    assert (Hcount : count_successful l (tick_state s) = count_successful l s)
      by done.
    destruct (cancel_req env (clock s) || cancelled s).
    { cbn. destruct (truthy (error (card r s))); lia. }
    rewrite Hcard. destruct (truthy (error (card r s))) eqn:He.
    + specialize (IH (i + 1) (tick_state s)). rewrite Hcount in IH.
      cbn [stats tick_state] in IH. lia.
    + destruct (audio_step_bound n i r (tick_state s)) as [Hs Hb].
      specialize (IH (i + 1) (audio_step n i r (tick_state s)).2).
      pose proof (count_successful_mono l _ _ Hs) as Hm.
      rewrite Hcount in Hm. cbn [stats tick_state] in Hb. lia.
Qed.

Lemma publish_and_finish_keeps_stats fl :
  Pres (keeps stats) (publish_and_finish fl).
Proof. keeps_tac fail. Qed.

Lemma after_content_bound fl s :
  let s' := (after_content fl s).2 in
  failed_words (stats s) <= failed_words (stats s')
  <= failed_words (stats s) + count_successful fl s.
Proof.
  cbv zeta. pose proof (count_successful_nonneg fl s) as H0.
  change (wp (after_content fl) (fun _ s' =>
    failed_words (stats s) <= failed_words (stats s')
    <= failed_words (stats s) + count_successful fl s) s).
  unfold after_content. wp_go.
  destruct (cancel_req env (clock s) || cancelled s); wp_go; [lia|].
  match goal with |- wp _ ?Q ?s0 =>
    assert (Ha : forall s1,
              failed_words (stats s) <= failed_words (stats s1)
              <= failed_words (stats s) + count_successful fl s ->
              Q tt s1)
  end.
  { intros s1 Hb. wp_go.
    destruct (cancel_req env (clock s1) || cancelled s1); wp_go; [lia|].
    apply (wp_pres (keeps stats));
      [apply publish_and_finish_keeps_stats|].
    intros _ s2 Hk. unfold keeps in Hk. rewrite Hk. cbn. lia. }
  destruct (test_mode config).
  - apply wp_ret. apply Ha. cbn. lia.
  - match goal with |- wp (audio_loop ?n ?i ?l) _ ?s0 =>
      pose proof (audio_loop_bound n i l s0) as Hb; unfold wp;
      destruct (audio_loop n i l s0) as [[] s1]
    end.
    apply Ha. exact Hb.
Qed.

(** X20.  The counters a user watches stay in order.  After any run of
    a freshly created generator, whatever the backends answered and
    whenever a cancellation came:
    [0 <= failed_words <= processed_words <= total_words].  A word is
    counted as failed at most once, in the content loop or in the audio
    loop. *)
Theorem counters_are_ordered ck meta fs :
  let s' := (run (init ck meta fs)).2 in
  0 <= failed_words (stats s') <= processed_words (stats s')
  /\ processed_words (stats s') <= total_words (stats s').
Proof.
  cbv zeta. set (s := init ck meta fs).
  destruct (init_spec ck meta fs) as (_ & _ & _ & Hst & _). fold s in Hst.
  pose proof (init_in_sync ck meta fs) as Hs. fold s in Hs.
  destruct (decide (usable_words = [])) as [He|Hne].
  - unfold usable_words in He.
    change (wp run (fun _ s' =>
      0 <= failed_words (stats s') <= processed_words (stats s')
      /\ processed_words (stats s') <= total_words (stats s')) s).
    unfold run, read_words, run_failed. wp_go.
    destruct (words_lines env) as [lines|]; wp_go.
    + rewrite He. wp_go. rewrite Hst. cbn. lia.
    + rewrite Hst. cbn. lia.
  - rewrite (run_with_words s Hne).
    set (n := Z.of_nat (length usable_words)).
    assert (H0 : wp (run_prologue usable_words) (fun _ s0 =>
              in_sync s0 /\ total_words (stats s0) = n /\
              processed_words (stats s0) = 0 /\
              failed_words (stats s0) = 0) s).
    { unfold run_prologue. wp_go. rewrite Hst. by cbn. }
    unfold wp in H0. unfold bind, ret.
    destruct (run_prologue usable_words s) as [[] s0]. cbn [fst snd] in H0.
    destruct H0 as (Hs0 & Ht0 & Hp0 & Hf0).
    destruct (content_loop_counts n 1 usable_words [] s0 Hs0)
      as (new & Hfl & _ & _ & _ & Ht1 & Hf1 & Hp1 & Hlen).
    destruct (content_loop n 1 usable_words [] s0) as [fl s1].
    cbn [fst snd app] in *. subst fl.
    pose proof (after_content_bound new s1) as Hb.
    pose proof (after_content_keeps_progress new s1) as Hk.
    destruct (after_content new s1) as [[] s2]. cbn [snd] in *.
    unfold keeps in Hk. injection Hk as Hk1 Hk2.
    rewrite Hk1, Hk2, Ht1, Ht0.
    pose proof (count_successful_le new s1) as Hle.
    pose proof (count_successful_nonneg new s1) as Hge.
    destruct new as [|r new]; cbn [length] in *; subst n; lia.
Qed.

End Counters.

(** * A cancellation during the audio phase (core.py 577-598) *)

Section AudioCancel.

Context {W : World}.

Lemma delivered_refl s : delivered s s.
Proof. split; [lia|]. split; [done|]. intros t Ht. lia. Qed.

Lemma delivered_trans s1 s2 s3 :
  delivered s1 s2 -> delivered s2 s3 -> delivered s1 s3.
Proof.
  intros (L1 & C1 & D1) (L2 & C2 & D2). split; [lia|]. split; [auto|].
  intros t Ht Hq. destruct (decide (t < clock s2)%nat).
  - apply C2, (D1 t); [lia|done].
  - apply (D2 t); [lia|done].
Qed.

Ltac delivered_leaf :=
  let t := fresh "t" in let Ht := fresh "Ht" in let Hq := fresh "Hq" in
  unfold delivered; copy_cases; st_simpl;
  (split; [lia|]);
  (split; [try (intros ->; by rewrite ?orb_true_r); done|]);
  intros t Ht Hq;
  first [ lia
        | match goal with
          | |- cancel_req env ?c || _ = true =>
              replace c with t by lia; by rewrite Hq
          end ].

Lemma audio_loop_delivered n i l : Pres delivered (audio_loop n i l).
Proof.
  revert i. induction l as [|r l IH]; intros i; cbn [audio_loop].
  - pres_with delivered_refl delivered_trans fail delivered_leaf.
  - pres_with delivered_refl delivered_trans ltac:(apply IH) delivered_leaf.
Qed.

Lemma audio_phase_delivered fl : Pres delivered (audio_phase fl).
Proof.
  unfold audio_phase.
  pres_with delivered_refl delivered_trans
    ltac:(apply audio_loop_delivered) delivered_leaf.
Qed.

Lemma audio_loop_before_publication n i l :
  Pres (emits before_publication) (audio_loop n i l).
Proof.
  revert i. induction l as [|r l IH]; intros i; cbn [audio_loop].
  - emits_with before_publication fail.
  - emits_with before_publication ltac:(apply IH).
Qed.

Lemma audio_phase_before_publication fl :
  Pres (emits before_publication) (audio_phase fl).
Proof.
  unfold audio_phase.
  emits_with before_publication ltac:(apply audio_loop_before_publication).
Qed.

Lemma audio_phase_keeps_checkpoint fl :
  Pres (keeps (fun s => (checkpoint s, checkpoint_disk s,
                         total_words (stats s), processed_words (stats s))))
    (audio_phase fl).
Proof.
  unfold audio_phase. keeps_tac ltac:(apply audio_loop_keeps_checkpoint).
Qed.

Lemma after_content_eq fl s :
  after_content fl s =
  if cancel_req env (clock s) || cancelled s then (tt, tick_state s)
  else let s1 := (audio_phase fl (tick_state s)).2 in
       if cancel_req env (clock s1) || cancelled s1 then (tt, tick_state s1)
       else publish_and_finish fl (tick_state s1).
Proof.
  unfold after_content, audio_phase. unfold bind at 1. rewrite poll_eq.
  destruct (cancel_req env (clock s) || cancelled s); [done|].
  unfold bind at 1.
  destruct ((if test_mode config then ret tt
             else audio_loop (Z.of_nat (length fl)) 1 fl) (tick_state s))
    as [[] s1].
  cbv zeta. cbn [snd]. unfold bind at 1. rewrite poll_eq.
  by destruct (cancel_req env (clock s1) || cancelled s1).
Qed.

(** X21.  A cancellation during the audio phase stops the run before
    publication.  If [cancel()] is requested at any instant from the
    test of [self.cancelled] that precedes the audio loop to the test
    that follows it, the run returns there: what happened since is
    audio work only (no media directory query, no file staged, no note,
    none of the states [COPYING_AUDIO], [SENDING_TO_ANKI], [COMPLETED]),
    and the checkpoint and its file are kept as they were. *)
Theorem cancellation_during_audio_stops_the_run fl s t :
  let s1 := (audio_phase fl (tick_state s)).2 in
  (clock s <= t <= clock s1)%nat -> cancel_req env t = true ->
  let s' := (after_content fl s).2 in
  cancelled s' = true /\
  forallb before_publication (new_events s s') = true /\
  checkpoint s' = checkpoint s /\ checkpoint_disk s' = checkpoint_disk s.
Proof.
  intros s1 Ht Hq s'. subst s'. rewrite after_content_eq.
  assert (Tk : forall s0, emits before_publication s0 (tick_state s0))
    by (intros s0; emits_leaf fail).
  destruct (cancel_req env (clock s) || cancelled s) eqn:E0.
  { cbn [snd]. split; [exact E0|]. split; [apply emits_new_events, Tk|done]. }
  cbv zeta. fold s1.
  pose proof (audio_phase_delivered fl (tick_state s)) as (L & C & D).
  pose proof (audio_phase_before_publication fl (tick_state s)) as He.
  pose proof (audio_phase_keeps_checkpoint fl (tick_state s)) as Hk.
  fold s1 in L, C, D, He, Hk.
  assert (E1 : cancel_req env (clock s1) || cancelled s1 = true).
  { apply orb_false_elim in E0 as [Hq0 _].
    destruct (decide (t = clock s1)) as [->|Hne]; [by rewrite Hq|].
    rewrite (D t); [apply orb_true_r| |done].
    cbn [clock tick_state]. split; [|lia].
    destruct (decide (t = clock s)) as [->|?]; [congruence|lia]. }
  rewrite E1. cbn [snd]. split; [exact E1|]. split.
  - apply emits_new_events.
    eapply emits_trans; [apply Tk|]. eapply emits_trans; [exact He|apply Tk].
  - unfold keeps in Hk. injection Hk as H1 H2 _ _. by split.
Qed.

End AudioCancel.

Lemma cancellation_during_audio_stops_the_run_witness :
  let ws := ["hund"; "kat"; "fugl"] in
  let s0 := (run_prologue ws (init (W := audio_cancel_world) None None ∅)).2 in
  let res := content_loop 3 1 ws [] s0 in
  cancelled (after_content res.1 res.2).2 = true.
Proof.
  intros ws s0 res.
  destruct (cancellation_during_audio_stops_the_run (W := audio_cancel_world)
              res.1 res.2 40%nat) as [H _].
  - vm_compute. split; apply Nat.leb_le; reflexivity.
  - reflexivity.
  - exact H.
Defined.

(** * Resuming from a checkpoint file (core.py 212-224, 273-278) *)

Section Resumption.

Context {W : World}.

Variable D : gset string.

Lemma settled_refl s : settled D s s.
Proof. intros H. split; [done|apply emits_refl]. Qed.

Lemma settled_trans s1 s2 s3 :
  settled D s1 s2 -> settled D s2 s3 -> settled D s1 s3.
Proof.
  intros H1 H2 H. destruct (H1 H) as [K1 E1]. destruct (H2 K1) as [K2 E2].
  split; [done|]. by eapply emits_trans.
Qed.

Ltac settled_leaf :=
  let H := fresh "H" in
  intros H; split;
  [ copy_cases; st_simpl; rewrite ?dom_insert_L; set_solver
  | emits_leaf fail ].

Lemma new_card_settled c : Pres (settled D) (new_card c).
Proof. intros s H. split; [done|]. apply new_card_emits. Qed.

Lemma generate_content_settled w :
  Pres (settled D) (generate_content_for_word w).
Proof.
  intros s H.
  change (wp (generate_content_for_word w) (fun _ s' =>
    D ⊆ dom (checkpoint s') /\ emits (asks_outside D) s s') s).
  unfold generate_content_for_word. wp_go.
  destruct (checkpoint s !! w) as [r|] eqn:Hck; wp_go.
  - split; [exact H|]. emits_leaf fail.
  - assert (Hw : asks_outside D (EvGemini w) = true).
    { cbn. apply bool_decide_eq_true_2. intros Hin.
      apply H in Hin. apply elem_of_dom in Hin as [r Hr]. congruence. }
    destruct (gemini env (S (clock s)) w) as [w' tr da en| |e]; wp_go.
    all: split; [exact H|].
    all: eexists; split;
      [ unfold callback, record_event; cbn; rewrite <- ?app_assoc; reflexivity
      | emits_forallb fail ].
    all: cbn in Hw; by rewrite Hw.
Qed.

Ltac settled_tac known :=
  pres_with settled_refl settled_trans
    ltac:(first [apply generate_content_settled | apply new_card_settled
                | known]) settled_leaf.

Lemma content_loop_settled n i ws fl : Pres (settled D) (content_loop n i ws fl).
Proof.
  revert i fl. induction ws as [|w ws IH]; intros i fl; cbn [content_loop].
  - settled_tac fail.
  - settled_tac ltac:(apply IH).
Qed.

Lemma audio_loop_settled n i l : Pres (settled D) (audio_loop n i l).
Proof.
  revert i. induction l as [|r l IH]; intros i; cbn [audio_loop].
  - settled_tac fail.
  - settled_tac ltac:(apply IH).
Qed.

Lemma run_settled : Pres (settled D) run.
Proof.
  settled_tac ltac:(first [apply content_loop_settled
                          | apply audio_loop_settled]).
Qed.

End Resumption.

Section Resumed.

Context {W : World}.

(** X22.  Resuming does not pay twice: a run of the generator created
    on a checkpoint file never calls the content backend for a word
    that the file holds, wherever and however often the word occurs in
    the word list. *)
Theorem resumed_run_never_asks_again m meta fs :
  let s := init (Some (Some m)) meta fs in
  forallb (asks_outside (dom m)) (new_events s (run s).2) = true.
Proof.
  intros s. apply emits_new_events.
  destruct (init_in_sync (Some (Some m)) meta fs) as [Hd _].
  destruct (init_spec (Some (Some m)) meta fs) as (_ & _ & Hck & _).
  fold s in Hd, Hck. unfold disk_words in Hd. rewrite Hck in Hd.
  apply (run_settled (dom m) s). by rewrite Hd.
Qed.

End Resumed.

(** * Audio phase: the estimate the Audio Stage sees (core.py 589-592) *)

Section EstimateSeen.

Context {W : World}.




End EstimateSeen.


(** * Cancellation requested while a word is processed
      (core.py 207-210, 281, 549, 557-578) *)

Section Requested.

Context {W : World}.











End Requested.


